(** * The board state coordinator of react-chessboard

    A shallow embedding of [src/context/chessboard-context.js]: the React
    state cells of [ChessboardProvider], the [premovesRef] reference, the
    pending [setTimeout] callbacks, and the code that changes them: the
    position effect, [handleSetPosition], [attemptPremove] and
    [clearPremoves].

    Every event (a render with a new [position], a drop, the expiry of a
    timer, a call of [clearPremoves]) runs to its end before the next one,
    against the state cells of the latest render; the props may differ
    from one event to the next. The consumer's callbacks are seen through
    the calls made to them and the truthiness of what they return; they do
    not call back into the provider while they run. The cells
    [chessPieces] and [screenSize] belong to the presentation and are left
    out. Time is not measured: a pending timer may expire at any moment. *)

From Stdlib Require Import Ascii.
From stdpp Require Import base strings list gmap fin_maps.

(** ** Data *)

(** A position is a JavaScript object from square names to piece names,
    only ever used as a map by the provider. *)
Abbreviation Position := (gmap string string).

(** [sourceSq] and [targetSq] are JavaScript values: a string, or
    [undefined] for a drop outside the board. *)
Inductive Square : Type :=
  | SqUndefined
  | Sq (name : string).

Global Instance Square_eq_dec : EqDecision Square.
Proof. solve_decision. Defined.

(** [!sq]: [undefined] and the empty string are the falsy values. *)
Definition falsy (sq : Square) : bool :=
  match sq with
  | SqUndefined => true
  | Sq name => bool_decide (name = "")
  end.

(** The property key [obj[sq]] reads or writes. *)
Definition key (sq : Square) : string :=
  match sq with
  | SqUndefined => "undefined"
  | Sq name => name
  end.

(** [obj[k] = v] for a string [v] on an object made by a literal: an own
    property is written, except under ["__proto__"], where the assignment
    reaches the setter inherited from [Object.prototype], which ignores a
    value that is not an object. *)
Definition assign (k v : string) (obj : Position) : Position :=
  if decide (k = "__proto__") then obj else <[k := v]> obj.

Global Arguments assign : simpl never.

(** [piece[0]]: the first character, [undefined] ([None]) on the empty
    string. *)
Abbreviation Colour := (option ascii).

Definition char0 (piece : string) : Colour :=
  match piece with
  | EmptyString => None
  | String c _ => Some c
  end.

Record Premove : Type := mkPremove {
  sourceSq : Square;
  targetSq : Square;
  piece : string
}.

Global Instance Premove_eq_dec : EqDecision Premove.
Proof. solve_decision. Defined.

(** The object returned by [getPositionDifferences]; each field lists the
    entries of the object in the order [Object.entries] enumerates them. *)
Record PositionDiff : Type := mkDiff {
  added : list (string * string);
  removed : list (string * string)
}.

(** A timeout id; [setTimeout] hands out positive integers. *)
Abbreviation TimeoutId := nat.

(** [onPieceDrop]: its declared arity ([onPieceDrop.length]) and the
    truthiness of what it returns. *)
Record Callback : Type := mkCallback {
  arity : nat;
  call : Square -> Square -> string -> bool
}.

(** The props the coordinator reads. *)
Record Props : Type := mkProps {
  animationDuration : nat;
  arePremovesAllowed : bool;
  dropOffBoardAction : string;
  expectingAlternateMoves : bool;
  onPieceDrop : Callback
}.

(** Calls made to the consumer's callbacks, oldest first. *)
Inductive Call : Type :=
  | GetPositionObject (p : Position)
  | OnPieceDrop (src tgt : Square) (pc : string).

(** The [useState] cells (as seen by one render). *)
Record State : Type := mkState {
  currentPosition : Position;
  positionDifferences : option PositionDiff;
  lastPieceColour : Colour;
  premoves : list Premove;
  manualDrop : bool;
  previousTimeout : option TimeoutId;
  waitingForAnimation : bool
}.

(** What the callback given to [setTimeout] closes over. *)
Record Commit : Type := mkCommit {
  commitPosition : Position;
  commitColour : Colour;
  commitProps : Props
}.

(** The whole store: state cells, the ref, the pending timers, the id the
    next [setTimeout] returns, the id captured by the cleanup function of
    the last effect run, and the calls made so far. *)
Record Board : Type := mkBoard {
  state : State;
  premovesRef : list Premove;
  timers : list (TimeoutId * Commit);
  nextTimeout : TimeoutId;
  cleanup : option TimeoutId;
  calls : list Call
}.

(** ** Handlers

    A handler runs against the store and returns a value. The [useState]
    cells it READS are those of the render that created it, passed as a
    separate [State] argument; the setters, the ref, the timers and the
    callbacks act on the store. *)
Definition Handler (A : Type) : Type := Board -> A * Board.

Global Instance Handler_ret : MRet Handler := λ A a b, (a, b).

Global Instance Handler_bind : MBind Handler :=
  λ A B f m b, match m b with (a, b') => f a b' end.

Definition setState (f : State -> State) : Handler unit :=
  λ b, (tt, mkBoard (f (state b)) (premovesRef b) (timers b)
                     (nextTimeout b) (cleanup b) (calls b)).

Definition setCurrentPosition (p : Position) : Handler unit :=
  setState (λ s, mkState p (positionDifferences s) (lastPieceColour s)
                   (premoves s) (manualDrop s) (previousTimeout s)
                   (waitingForAnimation s)).

Definition setPositionDifferences (d : PositionDiff) : Handler unit :=
  setState (λ s, mkState (currentPosition s) (Some d) (lastPieceColour s)
                   (premoves s) (manualDrop s) (previousTimeout s)
                   (waitingForAnimation s)).

Definition setLastPieceColour (c : Colour) : Handler unit :=
  setState (λ s, mkState (currentPosition s) (positionDifferences s) c
                   (premoves s) (manualDrop s) (previousTimeout s)
                   (waitingForAnimation s)).

Definition setPremoves (q : list Premove) : Handler unit :=
  setState (λ s, mkState (currentPosition s) (positionDifferences s)
                   (lastPieceColour s) q (manualDrop s) (previousTimeout s)
                   (waitingForAnimation s)).

Definition setManualDrop (v : bool) : Handler unit :=
  setState (λ s, mkState (currentPosition s) (positionDifferences s)
                   (lastPieceColour s) (premoves s) v (previousTimeout s)
                   (waitingForAnimation s)).

Definition setPreviousTimeout (t : option TimeoutId) : Handler unit :=
  setState (λ s, mkState (currentPosition s) (positionDifferences s)
                   (lastPieceColour s) (premoves s) (manualDrop s) t
                   (waitingForAnimation s)).

Definition setWaitingForAnimation (v : bool) : Handler unit :=
  setState (λ s, mkState (currentPosition s) (positionDifferences s)
                   (lastPieceColour s) (premoves s) (manualDrop s)
                   (previousTimeout s) v).

(** [premovesRef.current] and [premovesRef.current = q]. *)
Definition readPremovesRef : Handler (list Premove) :=
  λ b, (premovesRef b, b).

Definition writePremovesRef (q : list Premove) : Handler unit :=
  λ b, (tt, mkBoard (state b) q (timers b) (nextTimeout b) (cleanup b)
                     (calls b)).

(** [setTimeout(callback, delay)]: the callback becomes pending under a
    fresh id, which is returned. *)
Definition setTimeout (c : Commit) : Handler TimeoutId :=
  λ b, (nextTimeout b,
        mkBoard (state b) (premovesRef b) (timers b ++ [(nextTimeout b, c)])
                (S (nextTimeout b)) (cleanup b) (calls b)).

Definition cancel (id : TimeoutId) (ts : list (TimeoutId * Commit))
  : list (TimeoutId * Commit) :=
  filter (λ t, t.1 ≠ id) ts.

Global Arguments cancel : simpl never.

(** [clearTimeout(t)]; nothing happens for [undefined] or an id that is
    not pending. *)
Definition clearTimeout (t : option TimeoutId) : Handler unit :=
  λ b, (tt, match t with
            | None => b
            | Some id => mkBoard (state b) (premovesRef b)
                           (cancel id (timers b)) (nextTimeout b)
                           (cleanup b) (calls b)
            end).

(** The function the effect returns, [() => clearTimeout(previousTimeout)],
    is kept until the effect runs again. *)
Definition registerCleanup (t : option TimeoutId) : Handler unit :=
  λ b, (tt, mkBoard (state b) (premovesRef b) (timers b) (nextTimeout b)
                     t (calls b)).

Definition logCall (c : Call) : Handler unit :=
  λ b, (tt, mkBoard (state b) (premovesRef b) (timers b) (nextTimeout b)
                     (cleanup b) (calls b ++ [c])).

Definition getPositionObject (p : Position) : Handler unit :=
  logCall (GetPositionObject p).

(** [onPieceDrop(src, tgt, pc)], as the truthiness of its result. *)
Definition callOnPieceDrop (P : Props) (src tgt : Square) (pc : string)
  : Handler bool :=
  logCall (OnPieceDrop src tgt pc);; mret (call (onPieceDrop P) src tgt pc).

(** A timeout id in a condition: [undefined] and 0 are falsy. *)
Definition truthy (t : option TimeoutId) : bool :=
  match t with
  | None => false
  | Some id => bool_decide (id ≠ 0)
  end.

Definition exec {A} (h : Handler A) (b : Board) : Board := (h b).2.

(** ** The coordinator *)

Definition clearPremoves : Handler unit :=
  setLastPieceColour None;;
  writePremovesRef [];;
  setPremoves [].

Definition attemptPremove (P : Props) (newPieceColour : Colour)
  : Handler unit :=
  q ← readPremovesRef;
  match q with
  | [] => mret tt
  | premove :: _ =>
      if bool_decide (char0 (piece premove) ≠ None)
         && bool_decide (char0 (piece premove) ≠ newPieceColour)
         && bool_decide (arity (onPieceDrop P) ≠ 0)
      then
        setLastPieceColour (char0 (piece premove));;
        setManualDrop true;;
        isValidMove ← callOnPieceDrop P (sourceSq premove) (targetSq premove)
                        (piece premove);
        if isValidMove : bool then
          oldPremoves ← readPremovesRef;
          writePremovesRef (tail oldPremoves);;
          setPremoves (tail oldPremoves)
        else clearPremoves
      else mret tt
  end.

Definition handleSetPosition (P : Props) (r : State)
    (sourceSq targetSq : Square) (piece : string) : Handler unit :=
  if bool_decide (sourceSq = targetSq)
     || (negb (arePremovesAllowed P) && expectingAlternateMoves P
         && bool_decide (lastPieceColour r = char0 piece))
  then mret tt
  else
    q ← readPremovesRef;
    if arePremovesAllowed P
       && (bool_decide (lastPieceColour r = char0 piece)
           || bool_decide (length q ≠ 0))
    then
      let oldPremoves := q ++ [mkPremove sourceSq targetSq piece] in
      writePremovesRef oldPremoves;;
      setPremoves oldPremoves
    else if waitingForAnimation r then mret tt
    else
      let newOnDropPosition := currentPosition r in
      setManualDrop true;;
      setLastPieceColour (char0 piece);;
      newOnDropPosition ←
        (if bool_decide (arity (onPieceDrop P) ≠ 0) then
           isValidMove ← callOnPieceDrop P sourceSq targetSq piece;
           (if isValidMove : bool then mret tt else clearPremoves);;
           mret newOnDropPosition
         else
           let newOnDropPosition :=
             if bool_decide (dropOffBoardAction P = "trash")
                && falsy targetSq
             then delete (key sourceSq) newOnDropPosition
             else newOnDropPosition in
           let newOnDropPosition :=
             if bool_decide (sourceSq ≠ Sq "spare")
             then delete (key sourceSq) newOnDropPosition
             else newOnDropPosition in
           let newOnDropPosition :=
             assign (key targetSq) piece newOnDropPosition in
           setCurrentPosition newOnDropPosition;;
           mret newOnDropPosition);
      getPositionObject newOnDropPosition.

(** The callback handed to [setTimeout] by the position effect. *)
Definition commit (c : Commit) : Handler unit :=
  setCurrentPosition (commitPosition c);;
  setWaitingForAnimation false;;
  if arePremovesAllowed (commitProps c)
  then attemptPremove (commitProps c) (commitColour c)
  else mret tt.

(** The colour read off the diff:
    [Object.keys(added)?.length <= 2 ? Object.entries(added)?.[0]?.[1][0]
     : undefined]. *)
Definition newPieceColour (differences : PositionDiff) : Colour :=
  if bool_decide (length (added differences) ≤ 2) then
    match added differences with
    | [] => None
    | (_, pc) :: _ => char0 pc
    end
  else None.

(** ** The position effect and the events of a mounted board *)

Section Coordinator.

(** The [position] prop (a string or an object) and the three helpers the
    provider imports from [../functions]. *)
Context {PositionInput : Type}.
Variable convertPositionToObject : PositionInput -> Position.
Variable getPositionDifferences : Position -> Position -> PositionDiff.
Variable isDifferentFromStart : Position -> bool.

(** The body of [useEffect(..., [position])], run by a render whose state
    cells are [r]. *)
Definition positionEffect (P : Props) (position : PositionInput) (r : State)
  : Handler unit :=
  let newPosition := convertPositionToObject position in
  let differences := getPositionDifferences (currentPosition r) newPosition in
  let newPieceColour := newPieceColour differences in
  (if waitingForAnimation r then
     setCurrentPosition newPosition;;
     setWaitingForAnimation false;;
     if truthy (previousTimeout r)
     then clearTimeout (previousTimeout r)
     else mret tt
   else if manualDrop r then
     setCurrentPosition newPosition;;
     setWaitingForAnimation false
   else
     (if isDifferentFromStart newPosition
         && bool_decide (lastPieceColour r ≠ None)
      then setLastPieceColour newPieceColour
      else mret tt);;
     setPositionDifferences differences;;
     setWaitingForAnimation true;;
     newTimeout ← setTimeout (mkCommit newPosition newPieceColour P);
     setPreviousTimeout (Some newTimeout));;
  setManualDrop false;;
  getPositionObject newPosition;;
  registerCleanup (previousTimeout r).

(** The store after the [useState] and [useRef] initialisers. *)
Definition initial (position : PositionInput) : Board :=
  mkBoard (mkState (convertPositionToObject position) None None [] false
                   None false)
          [] [] 1 None [].

(** First render: the effect runs once. *)
Definition mount (P : Props) (position : PositionInput) : Board :=
  exec (positionEffect P position (state (initial position)))
       (initial position).

(** A render with a changed [position]: the cleanup of the previous run,
    then the effect. *)
Definition update (P : Props) (position : PositionInput) (b : Board)
  : Board :=
  exec (clearTimeout (cleanup b);; positionEffect P position (state b)) b.

(** [handleSetPosition] called from the latest render. *)
Definition handleDrop (P : Props) (sourceSq targetSq : Square)
    (piece : string) (b : Board) : Board :=
  exec (handleSetPosition P (state b) sourceSq targetSq piece) b.

Fixpoint pending (id : TimeoutId) (ts : list (TimeoutId * Commit))
  : option Commit :=
  match ts with
  | [] => None
  | (i, c) :: ts' => if decide (i = id) then Some c else pending id ts'
  end.

(** The timer [id] expires: its callback leaves the pending set and
    runs. *)
Definition fire (id : TimeoutId) (b : Board) : Board :=
  match pending id (timers b) with
  | None => b
  | Some c =>
      exec (commit c)
           (mkBoard (state b) (premovesRef b) (cancel id (timers b))
                    (nextTimeout b) (cleanup b) (calls b))
  end.

(** Teardown: React calls the cleanup function of the last effect run. *)
Definition unmount (b : Board) : Board :=
  exec (clearTimeout (cleanup b)) b.

Inductive Event : Type :=
  | PositionChanged (P : Props) (position : PositionInput)
  | Dropped (P : Props) (sourceSq targetSq : Square) (piece : string)
  | TimerExpired (id : TimeoutId)
  | PremovesCleared.

Definition step (b : Board) (e : Event) : Board :=
  match e with
  | PositionChanged P position => update P position b
  | Dropped P sourceSq targetSq piece => handleDrop P sourceSq targetSq piece b
  | TimerExpired id => fire id b
  | PremovesCleared => exec clearPremoves b
  end.

Definition run (P : Props) (position : PositionInput) (es : list Event)
  : Board :=
  foldl step (mount P position) es.

(** The stores a mounted board can be in. *)
Inductive Reachable : Board -> Prop :=
  | reach_mount P position : Reachable (mount P position)
  | reach_step b e : Reachable b -> Reachable (step b e).

(** What holds of every reachable store: a pending commit is the one
    recorded in [previousTimeout], it is alone, the board is then
    animating and the position the commit carries is the last one
    announced; the ref and the [premoves] cell agree; the ids handed out
    so far are below the next one. *)
Record Inv (b : Board) : Prop := mkInv {
  inv_timers :
    ∀ id c, (id, c) ∈ timers b →
      timers b = [(id, c)]
      ∧ previousTimeout (state b) = Some id
      ∧ waitingForAnimation (state b) = true
      ∧ id ≠ 0
      ∧ last (calls b) = Some (GetPositionObject (commitPosition c));
  inv_queue : premovesRef b = premoves (state b);
  inv_next : nextTimeout b ≠ 0;
  inv_fresh : ∀ id, previousTimeout (state b) = Some id → id < nextTimeout b
}.

End Coordinator.

(** ** Vocabulary of the statements *)

(** A drop that gets past the three early returns of
    [handleSetPosition]: not dropped back, not refused by turn
    alternation, not queued as a premove, not during an animation. *)
Definition liveDrop (P : Props) (b : Board) (sourceSq targetSq : Square)
    (piece : string) : Prop :=
  sourceSq ≠ targetSq
  ∧ ¬ (arePremovesAllowed P = false ∧ expectingAlternateMoves P = true
       ∧ lastPieceColour (state b) = char0 piece)
  ∧ ¬ (arePremovesAllowed P = true
       ∧ (lastPieceColour (state b) = char0 piece ∨ premovesRef b ≠ []))
  ∧ waitingForAnimation (state b) = false.




(** The call [attemptPremove] makes when it tries the premove [pm]. *)
Definition replay (pm : Premove) : Call :=
  OnPieceDrop (sourceSq pm) (targetSq pm) (piece pm).

(** ** Helpers for concrete runs *)

(** Modelled from the spec: [normalize] of [../functions] on an input that
    is already a mapping, which passes through. *)
Definition normalizeMapping (input : Position) : Position := input.

(** Modelled from the spec: [diff] of [../functions]. [added] holds the
    squares of the new position whose occupant is new or changed,
    [removed] the squares of the old position whose occupant is gone or
    changed. *)
Definition diff (oldPos newPos : Position) : PositionDiff :=
  mkDiff (filter (λ e, oldPos !! e.1 ≠ Some e.2) (map_to_list newPos))
         (filter (λ e, newPos !! e.1 ≠ Some e.2) (map_to_list oldPos)).

(** Modelled from the spec: the canonical starting layout. *)
Definition startPosition : Position :=
  list_to_map
    [("a1","wR"); ("b1","wN"); ("c1","wB"); ("d1","wQ");
     ("e1","wK"); ("f1","wB"); ("g1","wN"); ("h1","wR");
     ("a2","wP"); ("b2","wP"); ("c2","wP"); ("d2","wP");
     ("e2","wP"); ("f2","wP"); ("g2","wP"); ("h2","wP");
     ("a7","bP"); ("b7","bP"); ("c7","bP"); ("d7","bP");
     ("e7","bP"); ("f7","bP"); ("g7","bP"); ("h7","bP");
     ("a8","bR"); ("b8","bN"); ("c8","bB"); ("d8","bQ");
     ("e8","bK"); ("f8","bB"); ("g8","bN"); ("h8","bR")].

(** Modelled from the spec: [isDifferentFromStart] of [../functions], the
    equality check against the starting layout. *)
Definition differsFromStart (pos : Position) : bool :=
  bool_decide (pos ≠ startPosition).

(** [chessboardDefaultProps]: [onPieceDrop] is [() => true], of arity 0. *)
Definition defaultProps : Props :=
  mkProps 300 false "snapback" true (mkCallback 0 (λ _ _ _, true)).

(** Props of a consumer that validates drops: premoves on or off, and an
    [onPieceDrop] of arity 3 that answers [accept]. *)
Definition validatingProps (premovesAllowed accept : bool) : Props :=
  mkProps 300 premovesAllowed "snapback" true
          (mkCallback 3 (λ _ _ _, accept)).

(** Props without a validation callback that discard pieces dropped off
    the board. *)
Definition trashProps : Props :=
  mkProps 300 false "trash" true (mkCallback 0 (λ _ _ _, true)).

(** The start layout after 1. e4, after 1... e5, and after 2. Nf3 Nc6. *)
Definition afterE4 : Position :=
  <["e4" := "wP"]> (delete "e2" startPosition).

Definition afterE4E5 : Position :=
  <["e5" := "bP"]> (delete "e7" afterE4).

Definition afterNf3Nc6 : Position :=
  <["c6" := "bN"]> (delete "b8" (<["f3" := "wN"]> (delete "g1" afterE4E5))).

(** The position after 1. e4 e5 2. d4. *)
Definition afterD4 : Position :=
  <["d4" := "wP"]> (delete "d2" afterE4E5).

(** Runs of a board fed with explicit mappings. *)
Abbreviation sampleRun := (run normalizeMapping diff differsFromStart).
Abbreviation sampleUpdate := (update normalizeMapping diff differsFromStart).
Abbreviation SampleReachable :=
  (Reachable normalizeMapping diff differsFromStart).

(** Mounted on the start layout with the default props; the first
    animation is over. *)
Definition idleBoard : Board :=
  sampleRun defaultProps startPosition [TimerExpired 1].

(** White has dropped e2-e4 (applied directly), and the consumer has
    handed the new position back. *)
Definition whiteMoved : Board :=
  sampleRun defaultProps startPosition
    [TimerExpired 1;
     Dropped defaultProps (Sq "e2") (Sq "e4") "wP";
     PositionChanged defaultProps afterE4].

(** With premoves on: White's e2-e4 is accepted, d2-d4 is queued behind
    it, the consumer hands back the position after e4, then Black's
    reply e5 arrives and is being animated. *)
Definition animatingReply : Board :=
  sampleRun (validatingProps true true) startPosition
    [TimerExpired 1;
     Dropped (validatingProps true true) (Sq "e2") (Sq "e4") "wP";
     Dropped (validatingProps true true) (Sq "d2") (Sq "d4") "wP";
     PositionChanged (validatingProps true true) afterE4;
     PositionChanged (validatingProps true true) afterE4E5].

(** As [animatingReply] up to the hand-back of the position after e4:
    idle, White was the last mover, d2-d4 is queued. *)
Definition premoveWaiting : Board :=
  sampleRun (validatingProps true true) startPosition
    [TimerExpired 1;
     Dropped (validatingProps true true) (Sq "e2") (Sq "e4") "wP";
     Dropped (validatingProps true true) (Sq "d2") (Sq "d4") "wP";
     PositionChanged (validatingProps true true) afterE4].

(** [animatingReply], then the host calls [clearPremoves] before the
    animation is over. *)
Definition clearedWhileAnimating : Board :=
  sampleRun (validatingProps true true) startPosition
    [TimerExpired 1;
     Dropped (validatingProps true true) (Sq "e2") (Sq "e4") "wP";
     Dropped (validatingProps true true) (Sq "d2") (Sq "d4") "wP";
     PositionChanged (validatingProps true true) afterE4;
     PositionChanged (validatingProps true true) afterE4E5;
     PremovesCleared].

(** White has just dropped e2-e4 on the idle board (applied directly);
    the consumer has not answered yet. *)
Definition justDropped : Board :=
  sampleRun defaultProps startPosition
    [TimerExpired 1;
     Dropped defaultProps (Sq "e2") (Sq "e4") "wP"].

Global Instance liveDrop_dec P b src tgt pc :
  Decision (liveDrop P b src tgt pc).
Proof. unfold liveDrop. apply _. Defined.

(** ** Properties of the handlers *)

Ltac handler_unfold :=
  unfold handleDrop, handleSetPosition, attemptPremove, clearPremoves, commit,
    callOnPieceDrop, getPositionObject, logCall, registerCleanup, clearTimeout,
    setTimeout, readPremovesRef, writePremovesRef, setCurrentPosition,
    setPositionDifferences, setLastPieceColour, setPremoves, setManualDrop,
    setPreviousTimeout, setWaitingForAnimation, setState, exec,
    mbind, mret, Handler_bind, Handler_ret in *.

Ltac handler_simpl := handler_unfold; cbn in *.

Lemma live_guards P b src tgt pc :
  liveDrop P b src tgt pc →
  bool_decide (src = tgt)
    || (negb (arePremovesAllowed P) && expectingAlternateMoves P
        && bool_decide (lastPieceColour (state b) = char0 pc)) = false
  ∧ arePremovesAllowed P
    && (bool_decide (lastPieceColour (state b) = char0 pc)
        || bool_decide (length (premovesRef b) ≠ 0)) = false
  ∧ waitingForAnimation (state b) = false.
Proof.
  intros (Hne & Halt & Hq & Hw). split_and!; [| | done].
  - rewrite bool_decide_eq_false_2 by done. cbn.
    destruct (arePremovesAllowed P); [done |].
    destruct (expectingAlternateMoves P); [| done]. cbn.
    apply bool_decide_eq_false_2. intros Hc. by apply Halt.
  - destruct (arePremovesAllowed P); [| done]. cbn.
    apply orb_false_intro; apply bool_decide_eq_false_2; intros Hc; apply Hq.
    + by split; [| left].
    + split; [done | right]. by destruct (premovesRef b).
Qed.

(** What a live drop does when a validation callback is supplied. *)
Lemma handleDrop_delegated P b src tgt pc :
  liveDrop P b src tgt pc →
  arity (onPieceDrop P) ≠ 0 →
  handleDrop P src tgt pc b =
  let s := state b in
  if call (onPieceDrop P) src tgt pc then
    mkBoard (mkState (currentPosition s) (positionDifferences s) (char0 pc)
                     (premoves s) true (previousTimeout s)
                     (waitingForAnimation s))
            (premovesRef b) (timers b) (nextTimeout b) (cleanup b)
            (calls b ++ [OnPieceDrop src tgt pc]
                     ++ [GetPositionObject (currentPosition s)])
  else
    mkBoard (mkState (currentPosition s) (positionDifferences s) None
                     [] true (previousTimeout s) (waitingForAnimation s))
            [] (timers b) (nextTimeout b) (cleanup b)
            (calls b ++ [OnPieceDrop src tgt pc]
                     ++ [GetPositionObject (currentPosition s)]).
Proof.
  intros (G1 & G2 & G3)%live_guards Har. handler_simpl.
  rewrite G1, G2, G3.
  rewrite (bool_decide_eq_true_2 (arity (onPieceDrop P) ≠ 0)) by done.
  destruct (call (onPieceDrop P) src tgt pc); cbn;
    by rewrite <- app_assoc, ?G3.
Qed.

(** What a live drop does when no validation callback is supplied. *)
Lemma handleDrop_direct P b src tgt pc :
  liveDrop P b src tgt pc →
  arity (onPieceDrop P) = 0 →
  handleDrop P src tgt pc b =
  let s := state b in
  let p1 := if bool_decide (dropOffBoardAction P = "trash") && falsy tgt
            then delete (key src) (currentPosition s)
            else currentPosition s in
  let p2 := if bool_decide (src ≠ Sq "spare")
            then delete (key src) p1 else p1 in
  let p3 := assign (key tgt) pc p2 in
  mkBoard (mkState p3 (positionDifferences s) (char0 pc) (premoves s) true
                   (previousTimeout s) (waitingForAnimation s))
          (premovesRef b) (timers b) (nextTimeout b) (cleanup b)
          (calls b ++ [GetPositionObject p3]).
Proof.
  intros (G1 & G2 & G3)%live_guards Har. handler_simpl.
  rewrite G1, G2, G3.
  rewrite (bool_decide_eq_false_2 (arity (onPieceDrop P) ≠ 0)) by lia.
  by rewrite ?G3.
Qed.



(** The first early return of [handleSetPosition]. *)
Lemma handleDrop_returns_early P src tgt pc b :
  src = tgt
  ∨ (arePremovesAllowed P = false ∧ expectingAlternateMoves P = true
     ∧ char0 pc = lastPieceColour (state b)) →
  handleDrop P src tgt pc b = b.
Proof.
  intros H. handler_simpl.
  destruct H as [-> | (-> & -> & <-)].
  - by rewrite bool_decide_eq_true_2.
  - rewrite (bool_decide_eq_true_2 (char0 pc = char0 pc)) by done.
    cbn. by rewrite orb_true_r.
Qed.

(** C8: [handleDrop] changes nothing at all (position, queue, mover
    colour, flags, timers, and no callback is called) when the piece is
    dropped back on its square, or when premoves are off, alternate moves
    are expected and the piece has the colour of the last mover. *)
Theorem handleDrop_ignored P src tgt pc b :
  src = tgt
  ∨ (arePremovesAllowed P = false ∧ expectingAlternateMoves P = true
     ∧ char0 pc = lastPieceColour (state b)) →
  let b' := handleDrop P src tgt pc b in
  b' = b
  ∧ currentPosition (state b') = currentPosition (state b)
  ∧ premovesRef b' = premovesRef b
  ∧ premoves (state b') = premoves (state b)
  ∧ lastPieceColour (state b') = lastPieceColour (state b)
  ∧ manualDrop (state b') = manualDrop (state b)
  ∧ waitingForAnimation (state b') = waitingForAnimation (state b)
  ∧ calls b' = calls b.
Proof.
  intros H. cbn. by rewrite handleDrop_returns_early.
Qed.

(** C5: a live drop handed to a validation callback that returns a falsy
    value empties the premove queue (ref and state cell) and leaves the
    current position as it was. *)
Theorem rejected_drop_clears_queue P b src tgt pc :
  liveDrop P b src tgt pc →
  arity (onPieceDrop P) ≠ 0 →
  call (onPieceDrop P) src tgt pc = false →
  let b' := handleDrop P src tgt pc b in
  premovesRef b' = []
  ∧ premoves (state b') = []
  ∧ length (premovesRef b') = 0
  ∧ currentPosition (state b') = currentPosition (state b).
Proof.
  intros Hlive Har Hno b'. subst b'.
  rewrite handleDrop_delegated by done. cbn. by rewrite Hno.
Qed.

(** The store [attemptPremove] leaves, case by case. *)
Lemma attemptPremove_eq P c b :
  exec (attemptPremove P c) b =
  match premovesRef b with
  | [] => b
  | pm :: rest =>
      if bool_decide (char0 (piece pm) ≠ None)
         && bool_decide (char0 (piece pm) ≠ c)
         && bool_decide (arity (onPieceDrop P) ≠ 0)
      then
        let s := state b in
        if call (onPieceDrop P) (sourceSq pm) (targetSq pm) (piece pm) then
          mkBoard (mkState (currentPosition s) (positionDifferences s)
                           (char0 (piece pm)) rest true (previousTimeout s)
                           (waitingForAnimation s))
                  rest (timers b) (nextTimeout b) (cleanup b)
                  (calls b ++ [replay pm])
        else
          mkBoard (mkState (currentPosition s) (positionDifferences s)
                           None [] true (previousTimeout s)
                           (waitingForAnimation s))
                  [] (timers b) (nextTimeout b) (cleanup b)
                  (calls b ++ [replay pm])
      else b
  end.
Proof.
  handler_simpl. destruct (premovesRef b) as [|pm rest] eqn:Hq; [done |].
  destruct (_ && _); [| done]. cbn.
  destruct (call _ _ _ _); cbn; by rewrite ?Hq.
Qed.

(** Only the head of the queue is ever tried, and the queue afterwards is
    the old one, its tail, or empty. *)
Lemma attemptPremove_head_only P c b :
  let b' := exec (attemptPremove P c) b in
  b' = b
  ∨ ∃ pm rest, premovesRef b = pm :: rest
      ∧ calls b' = calls b ++ [replay pm]
      ∧ (premovesRef b' = rest ∨ premovesRef b' = []).
Proof.
  cbn. rewrite attemptPremove_eq.
  destruct (premovesRef b) as [|pm rest]; [by left |].
  destruct (_ && _); [| by left].
  right. exists pm, rest. cbn.
  destruct (call _ _ _ _); cbn; auto.
Qed.

(** The store a queued drop leaves. *)
Lemma handleDrop_queued P src tgt pc b :
  src ≠ tgt →
  arePremovesAllowed P = true →
  lastPieceColour (state b) = char0 pc ∨ premovesRef b ≠ [] →
  handleDrop P src tgt pc b =
  let s := state b in
  let q := premovesRef b ++ [mkPremove src tgt pc] in
  mkBoard (mkState (currentPosition s) (positionDifferences s)
                   (lastPieceColour s) q (manualDrop s) (previousTimeout s)
                   (waitingForAnimation s))
          q (timers b) (nextTimeout b) (cleanup b) (calls b).
Proof.
  intros Hne Hpre Hrule. handler_simpl. rewrite Hpre. cbn.
  rewrite (bool_decide_eq_false_2 (src = tgt)) by done. cbn.
  assert (bool_decide (lastPieceColour (state b) = char0 pc)
          || bool_decide (length (premovesRef b) ≠ 0) = true) as ->; [| done].
  destruct Hrule as [Hc | Hq].
  - by rewrite (bool_decide_eq_true_2 _ Hc).
  - rewrite (bool_decide_eq_true_2 (length (premovesRef b) ≠ 0)).
    + apply orb_true_r.
    + by destruct (premovesRef b).
Qed.

(** A drop that is neither ignored nor queued, made while an animation is
    pending, returns at once. *)
Lemma handleDrop_blocked P src tgt pc b :
  waitingForAnimation (state b) = true →
  ¬ (src ≠ tgt ∧ arePremovesAllowed P = true
     ∧ (lastPieceColour (state b) = char0 pc ∨ premovesRef b ≠ [])) →
  handleDrop P src tgt pc b = b.
Proof.
  intros Hw Hrule. handler_simpl. rewrite Hw.
  destruct (bool_decide (src = tgt)) eqn:Hst; [done |].
  apply bool_decide_eq_false_1 in Hst. cbn.
  destruct (_ && _ && _); [done |]. cbn.
  destruct (arePremovesAllowed P); [| done]. cbn.
  destruct (bool_decide (lastPieceColour _ = _)) eqn:Hc.
  { apply bool_decide_eq_true_1 in Hc. destruct Hrule. auto. }
  destruct (bool_decide (length _ ≠ 0)) eqn:Hq; [| done].
  apply bool_decide_eq_true_1 in Hq. destruct Hrule.
  split_and!; [done.. |]. right. intros Hnil. by rewrite Hnil in Hq.
Qed.

(** C4: with premoves enabled, a drop on another square of a piece of the
    last mover's colour, or made while the queue is not empty, is appended
    at the tail of the queue (ref and state cell), and nothing else in the
    store changes: not the position, and no callback is called. The queue
    is first in, first out: whatever [attemptPremove] does to the new
    queue, it calls the callback on its head only and leaves the queue
    as it is, without its head, or empty. *)
Theorem premove_queued_fifo P src tgt pc b :
  src ≠ tgt →
  arePremovesAllowed P = true →
  char0 pc = lastPieceColour (state b) ∨ premovesRef b ≠ [] →
  let b' := handleDrop P src tgt pc b in
  let q := premovesRef b ++ [mkPremove src tgt pc] in
  premovesRef b' = q
  ∧ premoves (state b') = q
  ∧ currentPosition (state b') = currentPosition (state b)
  ∧ lastPieceColour (state b') = lastPieceColour (state b)
  ∧ manualDrop (state b') = manualDrop (state b)
  ∧ waitingForAnimation (state b') = waitingForAnimation (state b)
  ∧ timers b' = timers b
  ∧ calls b' = calls b
  ∧ ∀ P' c,
      let b'' := exec (attemptPremove P' c) b' in
      b'' = b'
      ∨ ∃ pm rest, q = pm :: rest
          ∧ calls b'' = calls b' ++ [replay pm]
          ∧ (premovesRef b'' = rest ∨ premovesRef b'' = []).
Proof.
  intros Hne Hpre Hrule. cbn.
  assert (lastPieceColour (state b) = char0 pc ∨ premovesRef b ≠ []) as Hr
    by (destruct Hrule; auto).
  rewrite (handleDrop_queued P src tgt pc b Hne Hpre Hr). cbn.
  split_and!; try done.
  intros P' c. exact (attemptPremove_head_only P' c _).
Qed.





(** C3: [attemptPremove] changes nothing when the queue is empty.
    Otherwise it looks at the head [pm] without removing it and calls the
    callback on it exactly when [pm]'s piece has a colour, that colour
    differs from the new mover colour and a validation callback exists
    (so only if the colours differ and a callback exists); if not, the
    store is untouched. After a truthy result the mover colour is [pm]'s,
    the manual-drop flag is true and the queue is the old one without its
    head; after a falsy result the queue is empty. *)
Theorem attemptPremove_spec P c b :
  (premovesRef b = [] → exec (attemptPremove P c) b = b)
  ∧ ∀ pm rest, premovesRef b = pm :: rest →
      let b' := exec (attemptPremove P c) b in
      let attempt := char0 (piece pm) ≠ None ∧ char0 (piece pm) ≠ c
                     ∧ arity (onPieceDrop P) ≠ 0 in
      (calls b' ≠ calls b → char0 (piece pm) ≠ c ∧ arity (onPieceDrop P) ≠ 0)
      ∧ (¬ attempt → b' = b)
      ∧ (attempt →
           calls b' = calls b ++ [replay pm]
           ∧ currentPosition (state b') = currentPosition (state b)
           ∧ if call (onPieceDrop P) (sourceSq pm) (targetSq pm) (piece pm)
             then lastPieceColour (state b') = char0 (piece pm)
                  ∧ manualDrop (state b') = true
                  ∧ premovesRef b' = rest
                  ∧ premoves (state b') = rest
             else premovesRef b' = [] ∧ premoves (state b') = []).
Proof.
  split.
  - intros Hq. by rewrite attemptPremove_eq, Hq.
  - intros pm rest Hq. cbn. rewrite attemptPremove_eq, Hq.
    destruct (bool_decide (char0 (piece pm) ≠ None)) eqn:H1;
      [apply bool_decide_eq_true_1 in H1 | apply bool_decide_eq_false_1 in H1];
    (destruct (bool_decide (char0 (piece pm) ≠ c)) eqn:H2;
      [apply bool_decide_eq_true_1 in H2
      | apply bool_decide_eq_false_1 in H2]);
    (destruct (bool_decide (arity (onPieceDrop P) ≠ 0)) eqn:H3;
      [apply bool_decide_eq_true_1 in H3
      | apply bool_decide_eq_false_1 in H3]);
    cbn; try (split_and!; [done | done | by intros (? & ? & ?)]).
    split_and!; [done | by intros [] |].
    intros _. destruct (call _ _ _ _); cbn; done.
Qed.

(** C10: a live drop whose validation callback returns a falsy value
    leaves the mover colour undefined (neither the dropped piece's colour
    nor the earlier value survives the queue clearing) and the manual-drop
    flag true. A further drop, on another square, of a piece of the same
    colour is therefore live again whatever the props, turn alternation
    included: the callback, if there is one, is called and the consumer is
    told the position. *)
Theorem rejected_drop_resets_colour P b src tgt pc :
  liveDrop P b src tgt pc →
  arity (onPieceDrop P) ≠ 0 →
  call (onPieceDrop P) src tgt pc = false →
  let b' := handleDrop P src tgt pc b in
  lastPieceColour (state b') = None
  ∧ manualDrop (state b') = true
  ∧ ∀ P' src' tgt' pc',
      src' ≠ tgt' → char0 pc' = char0 pc → char0 pc ≠ None →
      liveDrop P' b' src' tgt' pc'
      ∧ ∃ p, calls (handleDrop P' src' tgt' pc' b')
             = calls b'
               ++ (if bool_decide (arity (onPieceDrop P') ≠ 0)
                   then [OnPieceDrop src' tgt' pc'] else [])
               ++ [GetPositionObject p].
Proof.
  intros Hlive Har Hno b'.
  assert (b' = handleDrop P src tgt pc b) as Hb' by done.
  rewrite handleDrop_delegated in Hb' by done. cbn in Hb'. rewrite Hno in Hb'.
  assert (waitingForAnimation (state b) = false) as Hw by apply Hlive.
  split_and!; [by rewrite Hb'.. |].
  intros P' src' tgt' pc' Hne Hcol Hsome.
  assert (liveDrop P' b' src' tgt' pc') as Hlive'.
  { rewrite Hb'. unfold liveDrop. cbn. rewrite Hcol.
    split_and!; [done | by intros (_ & _ & ?) | | done].
    intros (_ & [? | ?]); done. }
  split; [done |].
  destruct (decide (arity (onPieceDrop P') = 0)) as [Har' | Har'].
  - rewrite handleDrop_direct by done.
    rewrite (bool_decide_eq_false_2 (arity (onPieceDrop P') ≠ 0))
      by (intros ?; done).
    cbn. eauto.
  - rewrite handleDrop_delegated by done.
    rewrite (bool_decide_eq_true_2 (arity (onPieceDrop P') ≠ 0)) by done.
    cbn. destruct (call (onPieceDrop P') src' tgt' pc'); cbn; eauto.
Qed.

(** C7, as the code has it: while an animation is pending a drop never
    changes the current position, calls no callback and touches no timer.
    It changes nothing at all unless the queueing rule applies (another
    square, premoves enabled, and the piece has the last mover's colour or
    the queue is not empty); then the drop is appended to the premove
    queue. *)
Theorem drop_while_animating P src tgt pc b :
  waitingForAnimation (state b) = true →
  let b' := handleDrop P src tgt pc b in
  let queued := src ≠ tgt ∧ arePremovesAllowed P = true
                ∧ (lastPieceColour (state b) = char0 pc
                   ∨ premovesRef b ≠ []) in
  currentPosition (state b') = currentPosition (state b)
  ∧ calls b' = calls b
  ∧ timers b' = timers b
  ∧ waitingForAnimation (state b') = true
  ∧ (¬ queued → b' = b)
  ∧ (queued →
       premovesRef b' = premovesRef b ++ [mkPremove src tgt pc]
       ∧ premoves (state b') = premovesRef b ++ [mkPremove src tgt pc]).
Proof.
  intros Hw. cbn.
  destruct (decide (src ≠ tgt ∧ arePremovesAllowed P = true
                    ∧ (lastPieceColour (state b) = char0 pc
                       ∨ premovesRef b ≠ []))) as [Hq | Hq].
  - destruct Hq as (Hne & Hpre & Hrule).
    rewrite handleDrop_queued by done. cbn.
    split_and!; try done. intros []. done.
  - rewrite handleDrop_blocked by done.
    split_and!; try done.
Qed.

(** ** Properties of the mounted board *)

Lemma cancel_nil id : cancel id [] = [].
Proof. done. Qed.

Lemma cancel_self id c : cancel id [(id, c)] = [].
Proof. unfold cancel. rewrite filter_cons_False; [done | cbn; auto]. Qed.

Lemma cancel_one id' id c :
  cancel id' [(id, c)] = [] ∨ cancel id' [(id, c)] = [(id, c)].
Proof.
  unfold cancel. destruct (decide (id = id')) as [-> | Hne].
  - left. rewrite filter_cons_False; [done | cbn; auto].
  - right. by rewrite filter_cons_True.
Qed.

Lemma pending_elem_of id ts c : pending id ts = Some c → (id, c) ∈ ts.
Proof.
  induction ts as [|[i c'] ts IH]; cbn; [done |].
  case_decide; [intros [= ->]; subst; left | right; auto].
Qed.

Lemma Inv_no_timers s q n cl cs :
  q = premoves s → n ≠ 0 →
  (∀ id, previousTimeout s = Some id → id < n) →
  Inv (mkBoard s q [] n cl cs).
Proof.
  intros Hq Hn Hf. split; cbn; [| done..]. by intros id c ?%elem_of_nil.
Qed.

Lemma Inv_one_timer s q id c n cl cs :
  q = premoves s → n ≠ 0 →
  (∀ id, previousTimeout s = Some id → id < n) →
  previousTimeout s = Some id → waitingForAnimation s = true → id ≠ 0 →
  last cs = Some (GetPositionObject (commitPosition c)) →
  Inv (mkBoard s q [(id, c)] n cl cs).
Proof.
  intros Hq Hn Hf Hp Hw Hid Hl. split; cbn; [| done..].
  by intros id' c' [= -> ->]%list_elem_of_singleton.
Qed.

(** The two shapes of the pending set of a well-formed store. *)
Lemma Inv_timers_cases b :
  Inv b →
  timers b = []
  ∨ ∃ id c, timers b = [(id, c)]
      ∧ previousTimeout (state b) = Some id
      ∧ waitingForAnimation (state b) = true
      ∧ id ≠ 0
      ∧ last (calls b) = Some (GetPositionObject (commitPosition c)).
Proof.
  intros [Ht _ _ _]. destruct (timers b) as [|[id c] ts]; [by left |].
  right. exists id, c. apply Ht. left.
Qed.

Lemma Inv_idle b :
  Inv b → waitingForAnimation (state b) = false → timers b = [].
Proof.
  intros [HI | (id & c & _ & _ & Hw & _)]%Inv_timers_cases Hidle;
    [done | congruence].
Qed.

Lemma Inv_handleDrop P src tgt pc b :
  Inv b → Inv (handleDrop P src tgt pc b).
Proof.
  intros HI.
  destruct (decide (src = tgt
                    ∨ (arePremovesAllowed P = false
                       ∧ expectingAlternateMoves P = true
                       ∧ char0 pc = lastPieceColour (state b)))) as [Hi | Hi].
  { by rewrite handleDrop_returns_early. }
  destruct (decide (src ≠ tgt ∧ arePremovesAllowed P = true
                    ∧ (lastPieceColour (state b) = char0 pc
                       ∨ premovesRef b ≠ []))) as [Hq | Hq].
  { destruct Hq as (Hne & Hpre & Hrule). rewrite handleDrop_queued by done.
    destruct HI as [Ht Hs Hn Hf]. split; cbn; done. }
  destruct (waitingForAnimation (state b)) eqn:Hw.
  { by rewrite handleDrop_blocked. }
  assert (liveDrop P b src tgt pc) as Hlive.
  { split_and!; [| | | done].
    - intros ->. apply Hi. by left.
    - intros (? & ? & ?). apply Hi. right. done.
    - intros (? & ?). apply Hq. split_and!; [| done..].
      intros ->. apply Hi. by left. }
  pose proof (Inv_idle b HI Hw) as Hts. destruct HI as [_ Hs Hn Hf].
  destruct (decide (arity (onPieceDrop P) = 0)) as [Har | Har].
  - rewrite handleDrop_direct by done. cbn. rewrite Hts.
    by apply Inv_no_timers.
  - rewrite handleDrop_delegated by done. cbn. rewrite Hts.
    destruct (call _ _ _ _); by apply Inv_no_timers.
Qed.

Lemma Inv_attemptPremove P c b :
  Inv b → timers b = [] → Inv (exec (attemptPremove P c) b).
Proof.
  intros HI Hts. rewrite attemptPremove_eq.
  destruct (premovesRef b) as [|pm rest]; [done |].
  destruct (_ && _); [| done]. cbn. rewrite Hts.
  destruct HI as [_ Hs Hn Hf].
  destruct (call _ _ _ _); by apply Inv_no_timers.
Qed.

Lemma Inv_clearPremoves b : Inv b → Inv (exec clearPremoves b).
Proof.
  intros [Ht Hs Hn Hf]. handler_simpl. split; cbn; done.
Qed.

Lemma Inv_fire id b : Inv b → Inv (fire id b).
Proof.
  intros HI. unfold fire.
  destruct (pending id (timers b)) as [c|] eqn:Hp; [| done].
  apply pending_elem_of in Hp.
  destruct HI as [Ht Hs Hn Hf]. destruct (Ht _ _ Hp) as (Hts & _).
  rewrite Hts, cancel_self. unfold exec, commit.
  destruct (arePremovesAllowed (commitProps c)).
  - apply (Inv_attemptPremove (commitProps c) (commitColour c)
             (mkBoard _ _ _ _ _ _)); [| done].
    by apply Inv_no_timers.
  - handler_simpl. by apply Inv_no_timers.
Qed.

Section Mounted.

Context {PositionInput : Type}.
Variable convertPositionToObject : PositionInput -> Position.
Variable getPositionDifferences : Position -> Position -> PositionDiff.
Variable isDifferentFromStart : Position -> bool.

(** The store one run of the position effect leaves, branch by branch. *)
Lemma positionEffect_eq P position r b :
  exec (positionEffect convertPositionToObject getPositionDifferences
          isDifferentFromStart P position r) b =
  let newPosition := convertPositionToObject position in
  let differences := getPositionDifferences (currentPosition r) newPosition in
  let s := state b in
  if waitingForAnimation r then
    mkBoard (mkState newPosition (positionDifferences s) (lastPieceColour s)
                     (premoves s) false (previousTimeout s) false)
            (premovesRef b)
            (match previousTimeout r with
             | Some id => if truthy (Some id) then cancel id (timers b)
                          else timers b
             | None => timers b
             end)
            (nextTimeout b) (previousTimeout r)
            (calls b ++ [GetPositionObject newPosition])
  else if manualDrop r then
    mkBoard (mkState newPosition (positionDifferences s) (lastPieceColour s)
                     (premoves s) false (previousTimeout s) false)
            (premovesRef b) (timers b) (nextTimeout b) (previousTimeout r)
            (calls b ++ [GetPositionObject newPosition])
  else
    mkBoard (mkState (currentPosition s) (Some differences)
                     (if isDifferentFromStart newPosition
                         && bool_decide (lastPieceColour r ≠ None)
                      then newPieceColour differences
                      else lastPieceColour s)
                     (premoves s) false (Some (nextTimeout b)) true)
            (premovesRef b)
            (timers b ++ [(nextTimeout b,
                           mkCommit newPosition (newPieceColour differences)
                                    P)])
            (S (nextTimeout b)) (previousTimeout r)
            (calls b ++ [GetPositionObject newPosition]).
Proof.
  unfold positionEffect. handler_simpl.
  destruct (waitingForAnimation r).
  - destruct (previousTimeout r) as [id|]; cbn; [| done].
    by destruct (bool_decide (id ≠ 0)).
  - destruct (manualDrop r); [done |].
    by destruct (isDifferentFromStart _ && _).
Qed.

Lemma update_eq P position b :
  update convertPositionToObject getPositionDifferences isDifferentFromStart
         P position b =
  exec (positionEffect convertPositionToObject getPositionDifferences
          isDifferentFromStart P position (state b))
       (mkBoard (state b) (premovesRef b)
                (match cleanup b with
                 | Some id => cancel id (timers b)
                 | None => timers b
                 end)
                (nextTimeout b) (cleanup b) (calls b)).
Proof.
  unfold update, exec, clearTimeout, mbind, Handler_bind.
  destruct b as [s q ts n [id|] cs]; done.
Qed.

Lemma Inv_mount P position :
  Inv (mount convertPositionToObject getPositionDifferences
             isDifferentFromStart P position).
Proof.
  unfold mount. rewrite positionEffect_eq. cbn.
  apply Inv_one_timer; cbn; try done. intros id [= <-]. lia.
Qed.

Local Abbreviation update :=
  (update convertPositionToObject getPositionDifferences isDifferentFromStart).
Local Abbreviation step :=
  (step convertPositionToObject getPositionDifferences isDifferentFromStart).
Local Abbreviation Reachable :=
  (Reachable convertPositionToObject getPositionDifferences
             isDifferentFromStart).


Lemma Inv_update P position b : Inv b → Inv (update P position b).
Proof.
  intros HI. rewrite update_eq, positionEffect_eq. cbn.
  pose proof (Inv_timers_cases b HI) as Hcases.
  destruct HI as [_ Hs Hn Hf].
  destruct Hcases as [Hts | (id & c & Hts & Hp & Hw & Hid & Hl)].
  - rewrite Hts.
    assert (match cleanup b with
            | Some id => cancel id []
            | None => []
            end = @nil (TimeoutId * Commit)) as -> by (by destruct (cleanup b)).
    destruct (waitingForAnimation (state b)).
    { destruct (previousTimeout (state b)) as [id|];
        [destruct (bool_decide (id ≠ 0)) |]; by apply Inv_no_timers. }
    destruct (manualDrop (state b));
      [apply Inv_no_timers; cbn; [done | done | intros id ?%Hf; lia] |].
    cbn. apply Inv_one_timer; cbn; try done.
    + intros id [= <-]. lia.
    + by rewrite last_snoc.
  - rewrite Hts, Hw, Hp. cbn. rewrite bool_decide_eq_true_2 by done.
    assert (cancel id match cleanup b with
                      | Some id' => cancel id' [(id, c)]
                      | None => [(id, c)]
                      end = []) as ->.
    { destruct (cleanup b) as [id'|]; [| apply cancel_self].
      destruct (cancel_one id' id c) as [-> | ->];
        [done | apply cancel_self]. }
    apply Inv_no_timers; cbn; [done | done |].
    intros id0 [= <-]. by apply Hf.
Qed.

Lemma Inv_step b e : Inv b → Inv (step b e).
Proof.
  intros HI. destruct e; cbn.
  - by apply Inv_update.
  - by apply Inv_handleDrop.
  - by apply Inv_fire.
  - by apply Inv_clearPremoves.
Qed.

(** Every store of a mounted board is well formed. *)
Lemma Reachable_Inv b : Reachable b → Inv b.
Proof.
  induction 1 as [P position | b e _ IH].
  - apply Inv_mount.
  - by apply Inv_step.
Qed.

Lemma foldl_Reachable es b : Reachable b → Reachable (foldl step b es).
Proof.
  revert b. induction es as [|e es IH]; intros b Hb; cbn; [done |].
  apply IH. by constructor.
Qed.

Lemma run_Reachable P position es :
  Reachable (run convertPositionToObject getPositionDifferences
                 isDifferentFromStart P position es).
Proof. apply foldl_Reachable. constructor. Qed.

Lemma attemptPremove_position P c b :
  currentPosition (state (exec (attemptPremove P c) b))
  = currentPosition (state b).
Proof.
  rewrite attemptPremove_eq. destruct (premovesRef b); [done |].
  destruct (_ && _); [| done]. cbn. by destruct (call _ _ _ _).
Qed.

Lemma fire_not_pending id b : timers b = [] → fire id b = b.
Proof. intros Hts. unfold fire. by rewrite Hts. Qed.

(** The store the expiry of the only pending timer leaves. *)
Lemma fire_pending id c b :
  timers b = [(id, c)] →
  fire id b =
  exec (commit c)
       (mkBoard (state b) (premovesRef b) [] (nextTimeout b) (cleanup b)
                (calls b)).
Proof.
  intros Hts. unfold fire. rewrite Hts. cbn.
  rewrite decide_True by done. by rewrite cancel_self.
Qed.

(** C1: in every store of a mounted board at most one commit is pending;
    the board is then animating, the commit is the one recorded in
    [previousTimeout], the position it carries is the last one announced
    to the consumer, and that is the position its expiry makes current. When a new [position] arrives while the
    board is animating, no commit is pending afterwards (the expiry of
    any timer id then changes nothing), the new position is the current
    one and the board is no longer animating. *)
Theorem update_while_animating b :
  Reachable b →
  length (timers b) ≤ 1
  ∧ (∀ id c, (id, c) ∈ timers b →
       waitingForAnimation (state b) = true
       ∧ previousTimeout (state b) = Some id
       ∧ last (calls b) = Some (GetPositionObject (commitPosition c))
       ∧ currentPosition (state (fire id b)) = commitPosition c)
  ∧ (waitingForAnimation (state b) = true →
     ∀ P position,
       let b' := update P position b in
       timers b' = []
       ∧ (∀ id, fire id b' = b')
       ∧ currentPosition (state b') = convertPositionToObject position
       ∧ waitingForAnimation (state b') = false).
Proof.
  intros HI%Reachable_Inv.
  pose proof (Inv_timers_cases b HI) as Hcases. split_and!.
  - destruct Hcases as [-> | (id & c & -> & _)]; cbn; lia.
  - intros id c Hin. destruct HI as [Ht _ _ _].
    destruct (Ht id c Hin) as (Hts & Hp & Hw & _ & Hl).
    split_and!; [done.. |].
    rewrite (fire_pending id c) by done. unfold exec, commit.
    destruct (arePremovesAllowed (commitProps c)); [| done].
    exact (attemptPremove_position _ _ (mkBoard _ _ _ _ _ _)).
  - intros Hw P position.
    assert (timers (update P position b) = []) as Hnone.
    { rewrite update_eq, positionEffect_eq. cbn. rewrite Hw. cbn.
      destruct Hcases as [Hts | (id & c & Hts & Hp & _ & Hid & _)];
        rewrite Hts.
      - assert (match cleanup b with
                | Some id => cancel id []
                | None => []
                end = @nil (TimeoutId * Commit)) as ->
          by (by destruct (cleanup b)).
        destruct (previousTimeout (state b)) as [id|]; [| done].
        by destruct (bool_decide (id ≠ 0)).
      - rewrite Hp, bool_decide_eq_true_2 by done.
        destruct (cleanup b) as [id'|]; [| apply cancel_self].
        destruct (cancel_one id' id c) as [-> | ->];
          [done | apply cancel_self]. }
    cbn. split_and!; [done | intros id; by apply fire_not_pending | ..];
      rewrite update_eq, positionEffect_eq; cbn; by rewrite Hw.
Qed.

(** C2, as the code has it: the colour inferred from a diff is the colour
    of its first [added] entry when it has at most 2 of them (undefined
    when it has none) and undefined when it has more. An external update
    overwrites the stored mover colour with the inferred one, undefined
    included, when the board is neither animating nor just dropped on, the
    new position differs from the start layout and a mover colour was
    established; in every other case the stored colour is left as is. *)
Theorem update_mover_colour P position b :
  let newPosition := convertPositionToObject position in
  let differences :=
    getPositionDifferences (currentPosition (state b)) newPosition in
  let b' := update P position b in
  let overwrites :=
    negb (waitingForAnimation (state b)) && negb (manualDrop (state b))
    && isDifferentFromStart newPosition
    && bool_decide (lastPieceColour (state b) ≠ None) in
  (length (added differences) ≤ 2 →
     newPieceColour differences
     = match added differences with
       | [] => None
       | (_, pc) :: _ => char0 pc
       end)
  ∧ (2 < length (added differences) → newPieceColour differences = None)
  ∧ lastPieceColour (state b')
    = (if overwrites then newPieceColour differences
       else lastPieceColour (state b))
  ∧ (lastPieceColour (state b') ≠ lastPieceColour (state b) →
       isDifferentFromStart newPosition = true
       ∧ lastPieceColour (state b) ≠ None).
Proof.
  cbn.
  assert (lastPieceColour (state (update P position b))
          = if negb (waitingForAnimation (state b))
               && negb (manualDrop (state b))
               && isDifferentFromStart (convertPositionToObject position)
               && bool_decide (lastPieceColour (state b) ≠ None)
            then newPieceColour
                   (getPositionDifferences (currentPosition (state b))
                      (convertPositionToObject position))
            else lastPieceColour (state b)) as Hcol.
  { rewrite update_eq, positionEffect_eq. cbn.
    destruct (waitingForAnimation (state b)); [done |].
    by destruct (manualDrop (state b)). }
  split_and!.
  - intros Hle. unfold newPieceColour. by rewrite bool_decide_eq_true_2.
  - intros Hgt. unfold newPieceColour. rewrite bool_decide_eq_false_2; [done | lia].
  - done.
  - rewrite Hcol. intros Hne.
    destruct (isDifferentFromStart _);
      [| by rewrite andb_false_r in Hne].
    destruct (bool_decide (lastPieceColour (state b) ≠ None)) eqn:Hsome;
      [by apply bool_decide_eq_true_1 in Hsome |].
    by rewrite andb_false_r in Hne.
Qed.

(** C9: in every store of a mounted board the ref and the [premoves] cell
    hold the same queue, and every event keeps them equal: queueing a
    drop, removing an accepted premove and clearing write both in the same
    handler. The commit of a pending timer works on the queue as it is
    when the timer expires: nothing is tried when that queue is empty, and
    otherwise its head is what the callback is called on, and the queue
    left is its tail on a truthy result and empty on a falsy one. *)
Theorem premoves_ref_current b :
  Reachable b →
  premovesRef b = premoves (state b)
  ∧ (∀ e, premovesRef (step b e) = premoves (state (step b e)))
  ∧ ∀ id c, (id, c) ∈ timers b →
      arePremovesAllowed (commitProps c) = true →
      match premoves (state b) with
      | [] => calls (fire id b) = calls b ∧ premovesRef (fire id b) = []
      | pm :: rest =>
          char0 (piece pm) ≠ None →
          char0 (piece pm) ≠ commitColour c →
          arity (onPieceDrop (commitProps c)) ≠ 0 →
          calls (fire id b) = calls b ++ [replay pm]
          ∧ premovesRef (fire id b)
            = if call (onPieceDrop (commitProps c)) (sourceSq pm)
                   (targetSq pm) (piece pm)
              then rest else []
      end.
Proof.
  intros Hr. pose proof (Reachable_Inv b Hr) as HI. split_and!.
  - apply HI.
  - intros e. apply (Inv_step b e HI).
  - intros id c Hin Hpre. destruct HI as [Ht Hs _ _].
    destruct (Ht id c Hin) as (Hts & _).
    rewrite (fire_pending id c) by done. unfold exec, commit.
    rewrite Hpre. rewrite <- Hs.
    change ((_ ;; _ ;; attemptPremove ?P ?col) ?x)
      with (attemptPremove P col
              (mkBoard (mkState (commitPosition c)
                          (positionDifferences (state b))
                          (lastPieceColour (state b)) (premoves (state b))
                          (manualDrop (state b)) (previousTimeout (state b))
                          false)
                       (premovesRef b) [] (nextTimeout b) (cleanup b)
                       (calls b))).
    match goal with
    | |- context [(attemptPremove ?P ?col ?x).2] =>
        change ((attemptPremove P col x).2) with (exec (attemptPremove P col) x)
    end.
    rewrite attemptPremove_eq. cbn.
    destruct (premovesRef b) as [|pm rest]; [done |].
    intros H1 H2 H3.
    rewrite !bool_decide_eq_true_2 by done. cbn.
    by destruct (call _ _ _ _).
Qed.

(** The cleanup function the position effect returns clears the id that
    [previousTimeout] held when the effect ran, never the id of the commit
    that run schedules: a teardown right after an update that started an
    animation leaves the commit pending. *)
Theorem unmount_keeps_scheduled_commit b P position :
  Reachable b →
  waitingForAnimation (state b) = false →
  manualDrop (state b) = false →
  let b' := update P position b in
  let newPosition := convertPositionToObject position in
  let differences :=
    getPositionDifferences (currentPosition (state b)) newPosition in
  cleanup b' = previousTimeout (state b)
  ∧ timers b'
    = [(nextTimeout b, mkCommit newPosition (newPieceColour differences) P)]
  ∧ timers (unmount b') = timers b'.
Proof.
  intros HI%Reachable_Inv Hw Hm. cbn.
  pose proof (Inv_idle b HI Hw) as Hts. destruct HI as [_ _ _ Hf].
  unfold unmount, exec, clearTimeout.
  rewrite update_eq, positionEffect_eq. cbn. rewrite Hw, Hm, Hts. cbn.
  assert (match cleanup b with
          | Some id => cancel id []
          | None => []
          end = @nil (TimeoutId * Commit)) as -> by (by destruct (cleanup b)).
  cbn. split_and!; [done.. |].
  destruct (previousTimeout (state b)) as [id|]; [| done]. cbn.
  unfold cancel. rewrite filter_cons_True; [done |].
  cbn. specialize (Hf id eq_refl). lia.
Qed.

End Mounted.

(** ** The statements at concrete runs *)

(** Black's reply is being animated when a later position arrives: the
    commit is dropped and the later position is current at once. *)
Lemma update_while_animating_witness :
  waitingForAnimation (state animatingReply) = true
  ∧ timers (sampleUpdate (validatingProps true true) afterNf3Nc6
              animatingReply) = []
  ∧ currentPosition
      (state (sampleUpdate (validatingProps true true) afterNf3Nc6
                animatingReply))
    = normalizeMapping afterNf3Nc6.
Proof.
  split; [by vm_compute |].
  destruct (update_while_animating normalizeMapping diff differsFromStart
              animatingReply (run_Reachable _ _ _ _ _ _))
    as (_ & _ & Hupd).
  destruct (Hupd ltac:(by vm_compute) (validatingProps true true) afterNf3Nc6)
    as (Hnone & _ & Hpos & _).
  by split.
Defined.

(** After 1. e4 the mover colour is White's; an update three plies ahead
    has 3 added entries and leaves the mover colour undefined. *)
Lemma mover_colour_counterexample :
  SampleReachable whiteMoved
  ∧ 2 < length (added (diff (currentPosition (state whiteMoved))
                            (normalizeMapping afterNf3Nc6)))
  ∧ lastPieceColour (state whiteMoved) = Some "w"%char
  ∧ lastPieceColour
      (state (sampleUpdate defaultProps afterNf3Nc6 whiteMoved)) = None.
Proof.
  split; [apply run_Reachable |].
  vm_compute. split_and!; [lia | done..].
Qed.

(** A second white drop after 1. e4 goes to the tail of the queue. *)
Lemma premove_queued_fifo_witness :
  premovesRef (handleDrop (validatingProps true true) (Sq "d2") (Sq "d4")
                 "wP" whiteMoved)
  = premovesRef whiteMoved ++ [mkPremove (Sq "d2") (Sq "d4") "wP"]
  ∧ currentPosition
      (state (handleDrop (validatingProps true true) (Sq "d2") (Sq "d4")
                "wP" whiteMoved))
    = currentPosition (state whiteMoved).
Proof.
  destruct (premove_queued_fifo (validatingProps true true) (Sq "d2")
              (Sq "d4") "wP" whiteMoved)
    as (Href & _ & Hpos & _); [done | done | left; by vm_compute |].
  by split.
Defined.

(** With d2-d4 queued, a refused black drop empties the queue and leaves
    the position alone. *)
Lemma rejected_drop_clears_queue_witness :
  length (premovesRef premoveWaiting) = 1
  ∧ length (premovesRef (handleDrop (validatingProps false false) (Sq "e7")
                           (Sq "e5") "bP" premoveWaiting)) = 0
  ∧ currentPosition
      (state (handleDrop (validatingProps false false) (Sq "e7") (Sq "e5")
                "bP" premoveWaiting))
    = currentPosition (state premoveWaiting).
Proof.
  split; [by vm_compute |].
  destruct (rejected_drop_clears_queue (validatingProps false false)
              premoveWaiting (Sq "e7") (Sq "e5") "bP")
    as (_ & _ & Hlen & Hpos); [compute_done | done | done |].
  by split.
Defined.



(** While Black's reply is animated, with d2-d4 queued, the drop g1-f3 is
    not ignored: it joins the queue. *)
Lemma drop_while_animating_counterexample :
  SampleReachable animatingReply
  ∧ waitingForAnimation (state animatingReply) = true
  ∧ premovesRef animatingReply = [mkPremove (Sq "d2") (Sq "d4") "wP"]
  ∧ premovesRef (handleDrop (validatingProps true true) (Sq "g1") (Sq "f3")
                   "wN" animatingReply)
    = [mkPremove (Sq "d2") (Sq "d4") "wP";
       mkPremove (Sq "g1") (Sq "f3") "wN"].
Proof.
  split; [apply run_Reachable |].
  by vm_compute.
Qed.

(** The same drop leaves the position and the call log alone. *)
Lemma drop_while_animating_witness :
  currentPosition
    (state (handleDrop (validatingProps true true) (Sq "g1") (Sq "f3") "wN"
              animatingReply))
  = currentPosition (state animatingReply)
  ∧ calls (handleDrop (validatingProps true true) (Sq "g1") (Sq "f3") "wN"
             animatingReply)
    = calls animatingReply.
Proof.
  destruct (drop_while_animating (validatingProps true true) (Sq "g1")
              (Sq "f3") "wN" animatingReply ltac:(by vm_compute))
    as (Hpos & Hcalls & _).
  by split.
Defined.

(** With the default props, a second white drop after 1. e4 changes
    nothing. *)
Lemma handleDrop_ignored_witness :
  handleDrop defaultProps (Sq "d2") (Sq "d4") "wP" whiteMoved = whiteMoved.
Proof.
  apply (handleDrop_ignored defaultProps (Sq "d2") (Sq "d4") "wP" whiteMoved).
  right. by vm_compute.
Defined.

(** The commit for Black's reply was scheduled with d2-d4 queued; the
    queue is cleared before the timer expires, and the commit then tries
    nothing. *)
Lemma premoves_ref_current_witness :
  premoves (state animatingReply) = [mkPremove (Sq "d2") (Sq "d4") "wP"]
  ∧ premoves (state clearedWhileAnimating) = []
  ∧ premovesRef clearedWhileAnimating = []
  ∧ calls (fire 2 clearedWhileAnimating) = calls clearedWhileAnimating.
Proof.
  split; [by vm_compute |]. split; [by vm_compute |].
  destruct (premoves_ref_current normalizeMapping diff differsFromStart
              clearedWhileAnimating (run_Reachable _ _ _ _ _ _))
    as (Hsync & _ & Hfire).
  split; [rewrite Hsync; by vm_compute |].
  specialize (Hfire 2 (mkCommit afterE4E5 (Some "b"%char)
                         (validatingProps true true))).
  assert (premoves (state clearedWhileAnimating) = []) as Hq by (by vm_compute).
  rewrite Hq in Hfire. apply Hfire; [| done].
  assert (timers clearedWhileAnimating
          = [(2, mkCommit afterE4E5 (Some "b"%char)
                   (validatingProps true true))]) as -> by (by vm_compute).
  left.
Defined.

(** A refused e2-e4 leaves the mover colour undefined, and d2-d4 is then
    a live drop although alternate moves are expected. *)
Lemma rejected_drop_resets_colour_witness :
  lastPieceColour
    (state (handleDrop (validatingProps false false) (Sq "e2") (Sq "e4") "wP"
              idleBoard)) = None
  ∧ manualDrop
      (state (handleDrop (validatingProps false false) (Sq "e2") (Sq "e4")
                "wP" idleBoard)) = true
  ∧ liveDrop (validatingProps false false)
      (handleDrop (validatingProps false false) (Sq "e2") (Sq "e4") "wP"
         idleBoard)
      (Sq "d2") (Sq "d4") "wP".
Proof.
  destruct (rejected_drop_resets_colour (validatingProps false false)
              idleBoard (Sq "e2") (Sq "e4") "wP")
    as (Hcol & Hflag & Hnext); [compute_done | done | done |].
  split_and!; [done | done |].
  by apply (Hnext (validatingProps false false) (Sq "d2") (Sq "d4") "wP").
Defined.

(** An update of the idle board schedules timer 2 while its cleanup holds
    id 1: the teardown leaves timer 2 pending. *)
Lemma unmount_keeps_scheduled_commit_witness :
  cleanup (sampleUpdate defaultProps afterE4 idleBoard) = Some 1
  ∧ fst <$> timers (sampleUpdate defaultProps afterE4 idleBoard) = [2]
  ∧ timers (unmount (sampleUpdate defaultProps afterE4 idleBoard))
    = timers (sampleUpdate defaultProps afterE4 idleBoard).
Proof.
  destruct (unmount_keeps_scheduled_commit normalizeMapping diff
              differsFromStart idleBoard defaultProps afterE4
              (run_Reachable _ _ _ _ _ _))
    as (Hc & Ht & Hu); [by vm_compute.. |].
  split_and!; [by rewrite Hc | by rewrite Ht | done].
Defined.

(** ** Further properties of the handlers *)

(** The four ways a drop can end. *)
Lemma handleDrop_cases P src tgt pc b :
  handleDrop P src tgt pc b = b
  ∨ (src ≠ tgt ∧ arePremovesAllowed P = true
     ∧ (lastPieceColour (state b) = char0 pc ∨ premovesRef b ≠ []))
  ∨ (liveDrop P b src tgt pc ∧ arity (onPieceDrop P) = 0)
  ∨ (liveDrop P b src tgt pc ∧ arity (onPieceDrop P) ≠ 0).
Proof.
  destruct (decide (src = tgt
                    ∨ (arePremovesAllowed P = false
                       ∧ expectingAlternateMoves P = true
                       ∧ char0 pc = lastPieceColour (state b)))) as [Hi | Hi].
  { left. by apply handleDrop_returns_early. }
  destruct (decide (src ≠ tgt ∧ arePremovesAllowed P = true
                    ∧ (lastPieceColour (state b) = char0 pc
                       ∨ premovesRef b ≠ []))) as [Hq | Hq].
  { right. by left. }
  destruct (waitingForAnimation (state b)) eqn:Hw.
  { left. by apply handleDrop_blocked. }
  assert (liveDrop P b src tgt pc) as Hlive.
  { split_and!; [| | | done].
    - intros ->. apply Hi. by left.
    - intros (? & ? & ?). apply Hi. right. done.
    - intros (? & ?). apply Hq. split_and!; [| done..].
      intros ->. apply Hi. by left. }
  right. right.
  destruct (decide (arity (onPieceDrop P) = 0)); [by left | by right].
Qed.

Lemma handleDrop_animation_frame P src tgt pc b :
  timers (handleDrop P src tgt pc b) = timers b
  ∧ waitingForAnimation (state (handleDrop P src tgt pc b))
    = waitingForAnimation (state b)
  ∧ previousTimeout (state (handleDrop P src tgt pc b))
    = previousTimeout (state b)
  ∧ positionDifferences (state (handleDrop P src tgt pc b))
    = positionDifferences (state b)
  ∧ nextTimeout (handleDrop P src tgt pc b) = nextTimeout b
  ∧ cleanup (handleDrop P src tgt pc b) = cleanup b.
Proof.
  destruct (handleDrop_cases P src tgt pc b)
    as [-> | [(Hne & Hpre & Hrule) | [[Hlive Har] | [Hlive Har]]]].
  - done.
  - by rewrite handleDrop_queued.
  - by rewrite handleDrop_direct.
  - rewrite handleDrop_delegated by done. cbn.
    by destruct (call _ _ _ _).
Qed.

(** A drop never starts, ends or cancels an animation: the pending
    timers, the animating flag, the recorded timeout and the recorded diff
    are what they were, whatever the props and the drop. *)
Theorem handleDrop_leaves_animation P src tgt pc b :
  let b' := handleDrop P src tgt pc b in
  timers b' = timers b
  ∧ waitingForAnimation (state b') = waitingForAnimation (state b)
  ∧ previousTimeout (state b') = previousTimeout (state b)
  ∧ positionDifferences (state b') = positionDifferences (state b)
  ∧ nextTimeout b' = nextTimeout b
  ∧ cleanup b' = cleanup b.
Proof. exact (handleDrop_animation_frame P src tgt pc b). Qed.

(** A live drop that the validation callback accepts does not move the
    piece: the position is the old one, and it is the old position that
    [getPositionObject] is told, after the callback. The mover colour
    becomes the piece's, the manual-drop flag is set, the queue is
    untouched. *)
Theorem accepted_drop_keeps_position P b src tgt pc :
  liveDrop P b src tgt pc →
  arity (onPieceDrop P) ≠ 0 →
  call (onPieceDrop P) src tgt pc = true →
  let b' := handleDrop P src tgt pc b in
  currentPosition (state b') = currentPosition (state b)
  ∧ calls b' = calls b ++ [OnPieceDrop src tgt pc;
                           GetPositionObject (currentPosition (state b))]
  ∧ lastPieceColour (state b') = char0 pc
  ∧ manualDrop (state b') = true
  ∧ premovesRef b' = premovesRef b
  ∧ premoves (state b') = premoves (state b).
Proof.
  intros Hlive Har Hyes. cbn.
  rewrite handleDrop_delegated by done. cbn. by rewrite Hyes.
Qed.

(** For a source other than ['spare'], [dropOffBoardAction] makes no
    difference to a drop: the ['trash'] branch deletes the key that the
    next statement deletes anyway. *)
Theorem dropOffBoardAction_no_effect P P' src tgt pc b :
  arePremovesAllowed P' = arePremovesAllowed P →
  expectingAlternateMoves P' = expectingAlternateMoves P →
  onPieceDrop P' = onPieceDrop P →
  src ≠ Sq "spare" →
  handleDrop P' src tgt pc b = handleDrop P src tgt pc b.
Proof.
  intros Hpre Halt Hcb Hsrc. handler_simpl. rewrite Hpre, Halt, Hcb.
  destruct (_ || _); [done |]. cbn.
  destruct (_ && _); [done |]. cbn.
  destruct (waitingForAnimation (state b)); [done |]. cbn.
  destruct (bool_decide (arity (onPieceDrop P) ≠ 0)); [done |]. cbn.
  rewrite (bool_decide_eq_true_2 (src ≠ Sq "spare")) by done.
  destruct (bool_decide (dropOffBoardAction P' = "trash") && falsy tgt),
    (bool_decide (dropOffBoardAction P = "trash") && falsy tgt);
    by rewrite ?delete_delete_eq.
Qed.

(** An [onPieceDrop] of arity 0 (the default [() => true] is one) is
    never called: a drop calls at most [getPositionObject], and
    [attemptPremove] does nothing at all, so queued premoves are never
    replayed. *)
Theorem zero_arity_callback_never_called P :
  arity (onPieceDrop P) = 0 →
  (∀ src tgt pc b,
     calls (handleDrop P src tgt pc b) = calls b
     ∨ ∃ p, calls (handleDrop P src tgt pc b)
            = calls b ++ [GetPositionObject p])
  ∧ ∀ c b, exec (attemptPremove P c) b = b.
Proof.
  intros Har. split.
  - intros src tgt pc b.
    destruct (handleDrop_cases P src tgt pc b)
      as [-> | [(Hne & Hpre & Hrule) | [[Hlive _] | [_ ?]]]]; [by left | | | done].
    + left. by rewrite handleDrop_queued.
    + right. rewrite handleDrop_direct by done. cbn. eauto.
  - intros c b. rewrite attemptPremove_eq.
    destruct (premovesRef b); [done |].
    rewrite (bool_decide_eq_false_2 (arity (onPieceDrop P) ≠ 0)) by lia.
    by rewrite andb_false_r.
Qed.

(** [clearPremoves] lifts the turn-alternation block: on a board that is
    not animating, a drop on another square of a piece that has a colour
    is live right after it, whatever the props. *)
Theorem clearPremoves_unblocks P b src tgt pc :
  waitingForAnimation (state b) = false →
  src ≠ tgt →
  char0 pc ≠ None →
  let b' := exec clearPremoves b in
  liveDrop P b' src tgt pc
  ∧ currentPosition (state b') = currentPosition (state b)
  ∧ timers b' = timers b
  ∧ calls b' = calls b.
Proof.
  intros Hw Hne Hcol. cbn. unfold liveDrop. handler_simpl.
  split_and!; try done.
  - intros (_ & _ & ?). done.
  - intros (_ & [? | ?]); done.
Qed.

(** ** Further properties of the mounted board *)

Lemma attemptPremove_leaves_animation P c b :
  let b' := exec (attemptPremove P c) b in
  timers b' = timers b
  ∧ waitingForAnimation (state b') = waitingForAnimation (state b)
  ∧ currentPosition (state b') = currentPosition (state b)
  ∧ previousTimeout (state b') = previousTimeout (state b).
Proof.
  cbn. rewrite attemptPremove_eq. destruct (premovesRef b); [done |].
  destruct (_ && _); [| done]. cbn. by destruct (call _ _ _ _).
Qed.

Lemma clearPremoves_leaves_animation b :
  let b' := exec clearPremoves b in
  timers b' = timers b
  ∧ waitingForAnimation (state b') = waitingForAnimation (state b).
Proof. by handler_simpl. Qed.

Lemma exec_then {A} (m : Handler A) (k : Handler unit) b :
  exec (m ;; k) b = exec k (exec m b).
Proof. unfold exec, mbind, Handler_bind. by destruct (m b). Qed.

(** A commit finds an empty queue empty and leaves it so. *)
Lemma commit_empty_queue c b :
  premovesRef b = [] → premoves (state b) = [] →
  premovesRef (exec (commit c) b) = []
  ∧ premoves (state (exec (commit c) b)) = [].
Proof.
  intros Hq Hs. unfold commit. rewrite !exec_then.
  destruct (arePremovesAllowed (commitProps c)); [| done].
  rewrite attemptPremove_eq. cbn. by rewrite Hq.
Qed.

(** The expiry of the only pending timer: the commit's position is made
    current, the animating flag is cleared, and the head premove is tried
    if the props the commit closed over allow premoves. *)
Lemma fire_commit id c b :
  timers b = [(id, c)] →
  fire id b =
  let s := state b in
  let b0 := mkBoard (mkState (commitPosition c) (positionDifferences s)
                             (lastPieceColour s) (premoves s) (manualDrop s)
                             (previousTimeout s) false)
                    (premovesRef b) [] (nextTimeout b) (cleanup b) (calls b) in
  if arePremovesAllowed (commitProps c)
  then exec (attemptPremove (commitProps c) (commitColour c)) b0
  else b0.
Proof.
  intros Hts. rewrite (fire_pending id c b Hts). unfold exec, commit.
  by destruct (arePremovesAllowed (commitProps c)).
Qed.

Section Composition.

Context {PositionInput : Type}.
Variable convertPositionToObject : PositionInput -> Position.
Variable getPositionDifferences : Position -> Position -> PositionDiff.
Variable isDifferentFromStart : Position -> bool.

(** The store right after the first render. *)
Lemma mount_eq P position :
  mount convertPositionToObject getPositionDifferences isDifferentFromStart
        P position =
  let newPosition := convertPositionToObject position in
  let differences := getPositionDifferences newPosition newPosition in
  mkBoard (mkState newPosition (Some differences) None [] false (Some 1)
                   true)
          [] [(1, mkCommit newPosition (newPieceColour differences) P)] 2
          None [GetPositionObject newPosition].
Proof.
  unfold mount. rewrite positionEffect_eq. cbn.
  by rewrite andb_false_r.
Qed.

Local Abbreviation mount :=
  (mount convertPositionToObject getPositionDifferences isDifferentFromStart).
Local Abbreviation update :=
  (update convertPositionToObject getPositionDifferences isDifferentFromStart).
Local Abbreviation step :=
  (step convertPositionToObject getPositionDifferences isDifferentFromStart).
Local Abbreviation run :=
  (run convertPositionToObject getPositionDifferences isDifferentFromStart).
Local Abbreviation Reachable :=
  (Reachable convertPositionToObject getPositionDifferences
             isDifferentFromStart).

Lemma update_frame P position b :
  calls (update P position b)
  = calls b ++ [GetPositionObject (convertPositionToObject position)]
  ∧ manualDrop (state (update P position b)) = false
  ∧ premovesRef (update P position b) = premovesRef b
  ∧ premoves (state (update P position b)) = premoves (state b).
Proof.
  rewrite update_eq, positionEffect_eq. cbn.
  destruct (waitingForAnimation (state b)); [done |].
  by destruct (manualDrop (state b)).
Qed.

(** Whatever branch an external update takes, it tells [getPositionObject]
    the new position once and calls nothing else, clears the manual-drop
    flag, and leaves the premove queue (ref and cell) as it was. *)
Theorem update_announces_position P position b :
  let b' := update P position b in
  calls b' = calls b ++ [GetPositionObject (convertPositionToObject position)]
  ∧ manualDrop (state b') = false
  ∧ premovesRef b' = premovesRef b
  ∧ premoves (state b') = premoves (state b).
Proof. exact (update_frame P position b). Qed.

(** An external update that follows a manual drop is adopted at once: no
    animation is scheduled, and neither the mover colour nor the recorded
    diff changes. *)
Theorem update_after_manual_drop P position b :
  Reachable b →
  waitingForAnimation (state b) = false →
  manualDrop (state b) = true →
  let b' := update P position b in
  currentPosition (state b') = convertPositionToObject position
  ∧ waitingForAnimation (state b') = false
  ∧ timers b' = []
  ∧ lastPieceColour (state b') = lastPieceColour (state b)
  ∧ positionDifferences (state b') = positionDifferences (state b)
  ∧ nextTimeout b' = nextTimeout b.
Proof.
  intros HI%Reachable_Inv Hw Hm. cbn.
  pose proof (Inv_idle b HI Hw) as Hts.
  rewrite update_eq, positionEffect_eq. cbn. rewrite Hw, Hm, Hts. cbn.
  split_and!; try done. by destruct (cleanup b).
Qed.

(** Drops made while the board is animating leave the position, the
    animating flag, the pending timers and the call log alone. *)
Lemma drops_while_animating es b :
  waitingForAnimation (state b) = true →
  (∀ e, e ∈ es → ∃ P s t pc, e = Dropped P s t pc) →
  let b' := foldl step b es in
  currentPosition (state b') = currentPosition (state b)
  ∧ waitingForAnimation (state b') = true
  ∧ timers b' = timers b
  ∧ calls b' = calls b.
Proof.
  revert b. induction es as [|e es IH]; intros b Hw Hes; cbn; [done |].
  destruct (Hes e) as (P & s & t & pc & ->); [left |]. cbn.
  assert (currentPosition (state (handleDrop P s t pc b))
          = currentPosition (state b)
          ∧ waitingForAnimation (state (handleDrop P s t pc b)) = true
          ∧ timers (handleDrop P s t pc b) = timers b
          ∧ calls (handleDrop P s t pc b) = calls b) as (H1 & H2 & H3 & H4).
  { destruct (handleDrop_cases P s t pc b)
      as [-> | [(Hne & Hpre & Hrule) | [[Hlive _] | [Hlive _]]]].
    - done.
    - by rewrite handleDrop_queued.
    - destruct Hlive as (_ & _ & _ & ?). congruence.
    - destruct Hlive as (_ & _ & _ & ?). congruence. }
  destruct (IH (handleDrop P s t pc b)) as (H1' & H2' & H3' & H4');
    [done | intros e He; apply Hes; by right |].
  cbn in *. by rewrite H1', H3', H4'.
Qed.

(** The store an update leaves when it starts an animation. *)
Lemma update_schedules P position b :
  Inv b →
  waitingForAnimation (state b) = false →
  manualDrop (state b) = false →
  let newPosition := convertPositionToObject position in
  let differences :=
    getPositionDifferences (currentPosition (state b)) newPosition in
  let b' := update P position b in
  timers b'
  = [(nextTimeout b, mkCommit newPosition (newPieceColour differences) P)]
  ∧ currentPosition (state b') = currentPosition (state b)
  ∧ waitingForAnimation (state b') = true
  ∧ positionDifferences (state b') = Some differences
  ∧ previousTimeout (state b') = Some (nextTimeout b).
Proof.
  intros HI Hw Hm. cbn. pose proof (Inv_idle b HI Hw) as Hts.
  rewrite update_eq, positionEffect_eq. cbn. rewrite Hw, Hm, Hts. cbn.
  split_and!; try done. by destruct (cleanup b).
Qed.

(** An external update on an idle board whose last change was not a
    manual drop is animated: the current position stays the old one,
    whatever is dropped meanwhile, and no callback is called for those
    drops; when the timer expires the new position is current, the board
    is idle again and no timer is left. *)
Theorem animated_update_commits P position es b :
  Reachable b →
  waitingForAnimation (state b) = false →
  manualDrop (state b) = false →
  (∀ e, e ∈ es → ∃ P' s t pc, e = Dropped P' s t pc) →
  let b1 := update P position b in
  let b2 := foldl step b1 es in
  let b3 := fire (nextTimeout b) b2 in
  currentPosition (state b2) = currentPosition (state b)
  ∧ waitingForAnimation (state b2) = true
  ∧ calls b2 = calls b ++ [GetPositionObject (convertPositionToObject position)]
  ∧ currentPosition (state b3) = convertPositionToObject position
  ∧ waitingForAnimation (state b3) = false
  ∧ timers b3 = [].
Proof.
  intros HI%Reachable_Inv Hw Hm Hes. cbn.
  destruct (update_schedules P position b HI Hw Hm)
    as (Hts & Hpos & Hw1 & _).
  destruct (drops_while_animating es (update P position b) Hw1 Hes)
    as (Hpos2 & Hw2 & Hts2 & Hcalls2).
  cbn in Hpos2, Hw2, Hts2, Hcalls2. rewrite Hts in Hts2.
  destruct (update_frame P position b) as (Hcalls & _).
  split_and!; [congruence | done | congruence | ..];
    rewrite (fire_commit _ _ _ Hts2); cbn;
    (destruct (arePremovesAllowed P); [| done]);
    match goal with
    | |- context [exec (attemptPremove P ?col) ?x] =>
        destruct (attemptPremove_leaves_animation P col x)
          as (Ht3 & Hw3 & Hp3 & _)
    end; done.
Qed.

(** The commit follows the props of the render that scheduled it: when
    that render did not allow premoves, the expiry of its timer tries no
    premove and calls no callback, even if drops made meanwhile under
    other props have filled the queue. *)
Theorem commit_uses_scheduling_props P position es b :
  Reachable b →
  waitingForAnimation (state b) = false →
  manualDrop (state b) = false →
  (∀ e, e ∈ es → ∃ P' s t pc, e = Dropped P' s t pc) →
  arePremovesAllowed P = false →
  let b2 := foldl step (update P position b) es in
  let b3 := fire (nextTimeout b) b2 in
  calls b3 = calls b2
  ∧ premovesRef b3 = premovesRef b2
  ∧ premoves (state b3) = premoves (state b2)
  ∧ lastPieceColour (state b3) = lastPieceColour (state b2)
  ∧ manualDrop (state b3) = manualDrop (state b2).
Proof.
  intros HI%Reachable_Inv Hw Hm Hes Hoff. cbn.
  destruct (update_schedules P position b HI Hw Hm) as (Hts & _ & Hw1 & _).
  destruct (drops_while_animating es (update P position b) Hw1 Hes)
    as (_ & _ & Hts2 & _).
  cbn in Hts2. rewrite Hts in Hts2.
  rewrite (fire_commit _ _ _ Hts2). cbn. by rewrite Hoff.
Qed.

Lemma Reachable_waiting_pending b :
  Reachable b → waitingForAnimation (state b) = true → timers b ≠ [].
Proof.
  induction 1 as [P position | b e Hb IH].
  - by rewrite mount_eq.
  - pose proof (Reachable_Inv _ _ _ b Hb) as HI.
    destruct e as [P position | P s t pc | id |]; cbn.
    + rewrite update_eq, positionEffect_eq. cbn.
      destruct (waitingForAnimation (state b)); [done |].
      destruct (manualDrop (state b)); [done |].
      intros _. cbn. by intros [_ [=]]%app_eq_nil.
    + destruct (handleDrop_animation_frame P s t pc b) as (-> & -> & _).
      done.
    + unfold fire. destruct (pending id (timers b)) as [c|] eqn:Hp; [| done].
      apply pending_elem_of in Hp. destruct HI as [Ht _ _ _].
      destruct (Ht _ _ Hp) as (Hts & _).
      pose proof (fire_commit id c b Hts) as Hf. unfold fire in Hf.
      rewrite Hts in Hf. cbn in Hf. rewrite decide_True in Hf by done.
      rewrite Hts. rewrite Hf.
      destruct (arePremovesAllowed (commitProps c)); [| done].
      match goal with
      | |- context [exec (attemptPremove ?P ?col) ?x] =>
          destruct (attemptPremove_leaves_animation P col x) as (_ & -> & _)
      end. done.
    + destruct (clearPremoves_leaves_animation b) as (-> & ->). done.
Qed.

(** The animating flag and the pending timer go together: in every store
    of a mounted board the flag is set exactly when a commit is pending,
    and the expiry of the timer recorded in [previousTimeout] then clears
    it, so the board cannot stay blocked in the animating state. *)
Theorem animating_iff_pending b :
  Reachable b →
  (waitingForAnimation (state b) = true ↔ timers b ≠ [])
  ∧ (waitingForAnimation (state b) = true →
     ∃ id, previousTimeout (state b) = Some id
           ∧ waitingForAnimation (state (fire id b)) = false
           ∧ timers (fire id b) = []).
Proof.
  intros Hr. pose proof (Reachable_Inv _ _ _ b Hr) as HI.
  pose proof (Reachable_waiting_pending b Hr) as Hpend.
  destruct (Inv_timers_cases b HI)
    as [Hts | (id & c & Hts & Hp & Hw & _)].
  - split; [split; [done | by rewrite Hts] |].
    intros Hw. by destruct (Hpend Hw).
  - split; [split; [auto | done] |].
    intros _. exists id. split; [done |].
    rewrite (fire_commit id c b Hts). cbn.
    destruct (arePremovesAllowed (commitProps c)); [| done].
    match goal with
    | |- context [exec (attemptPremove ?P ?col) ?x] =>
        destruct (attemptPremove_leaves_animation P col x) as (-> & -> & _)
    end. done.
Qed.

(** The first render starts an animation although nothing moves: the
    board shows the given position, is animating with timer 1 pending, has
    no mover colour and has told [getPositionObject] the position once.
    Until that timer expires every drop of a piece that has a colour is
    ignored, whatever the props; its expiry leaves the position, makes
    the board idle and calls nothing. *)
Theorem mount_animates P position :
  let b := mount P position in
  let b' := fire 1 b in
  currentPosition (state b) = convertPositionToObject position
  ∧ waitingForAnimation (state b) = true
  ∧ lastPieceColour (state b) = None
  ∧ calls b = [GetPositionObject (convertPositionToObject position)]
  ∧ (∀ P' src tgt pc, char0 pc ≠ None → handleDrop P' src tgt pc b = b)
  ∧ currentPosition (state b') = convertPositionToObject position
  ∧ waitingForAnimation (state b') = false
  ∧ timers b' = []
  ∧ calls b' = calls b.
Proof.
  cbn. rewrite mount_eq. cbn.
  erewrite fire_commit; [| reflexivity]. cbn.
  assert (∀ P' src tgt pc b, waitingForAnimation (state b) = true →
            lastPieceColour (state b) = None → premovesRef b = [] →
            char0 pc ≠ None → handleDrop P' src tgt pc b = b) as Hblocked.
  { intros P' src tgt pc b Hw Hc Hq Hcol. apply handleDrop_blocked; [done |].
    rewrite Hc, Hq. intros (_ & _ & [? | ?]); done. }
  destruct (arePremovesAllowed P); rewrite ?attemptPremove_eq; cbn;
    split_and!; try done; intros; by apply Hblocked.
Qed.

(** A premove tried by a commit counts as a manual drop, accepted or
    not: the external update that follows is adopted at once, without
    animation. It finds the mover colour of the premove's piece and the
    rest of the queue after a truthy result, no mover colour and an empty
    queue after a falsy one. *)
Theorem premove_replay_not_animated id c pm rest P position b :
  Reachable b →
  (id, c) ∈ timers b →
  arePremovesAllowed (commitProps c) = true →
  premoves (state b) = pm :: rest →
  char0 (piece pm) ≠ None →
  char0 (piece pm) ≠ commitColour c →
  arity (onPieceDrop (commitProps c)) ≠ 0 →
  let b1 := fire id b in
  let b2 := update P position b1 in
  let accepted :=
    call (onPieceDrop (commitProps c)) (sourceSq pm) (targetSq pm)
         (piece pm) in
  manualDrop (state b1) = true
  ∧ currentPosition (state b2) = convertPositionToObject position
  ∧ waitingForAnimation (state b2) = false
  ∧ timers b2 = []
  ∧ lastPieceColour (state b2)
    = (if accepted then char0 (piece pm) else None)
  ∧ premovesRef b2 = (if accepted then rest else []).
Proof.
  intros HI%Reachable_Inv Hin Hpre Hq H1 H2 H3. cbn.
  destruct HI as [Ht Hs _ _]. destruct (Ht _ _ Hin) as (Hts & _).
  rewrite (fire_commit id c b Hts). cbn. rewrite Hpre.
  rewrite attemptPremove_eq. cbn. rewrite Hs, Hq.
  rewrite !bool_decide_eq_true_2 by done. cbn.
  destruct (call _ _ _ _); cbn;
    rewrite update_eq, positionEffect_eq; cbn;
    (split_and!; try done); by destruct (cleanup b).
Qed.

Lemma queue_stays_empty es b :
  premovesRef b = [] → premoves (state b) = [] →
  (∀ P' s t pc, Dropped P' s t pc ∈ es → arePremovesAllowed P' = false) →
  premovesRef (foldl step b es) = []
  ∧ premoves (state (foldl step b es)) = [].
Proof.
  revert b. induction es as [|e es IH]; intros b Hq Hs Hoff; cbn; [done |].
  assert (premovesRef (step b e) = [] ∧ premoves (state (step b e)) = [])
    as [Hq' Hs'].
  { destruct e as [P position | P s t pc | id |]; cbn.
    - destruct (update_frame P position b) as (_ & _ & -> & ->). done.
    - assert (arePremovesAllowed P = false) as Hp by (eapply Hoff; left).
      destruct (handleDrop_cases P s t pc b)
        as [-> | [(_ & Hpre & _) | [[Hlive Har] | [Hlive Har]]]].
      + done.
      + congruence.
      + by rewrite handleDrop_direct.
      + rewrite handleDrop_delegated by done. cbn.
        by destruct (call _ _ _ _).
    - unfold fire. destruct (pending id (timers b)); [| done].
      by apply commit_empty_queue.
    - by handler_simpl. }
  apply IH; [done | done |]. intros P' s t pc Hin. eapply Hoff. by right.
Qed.

(** As long as no drop is made under props that allow premoves, the
    premove queue stays empty, whatever else happens to the board. *)
Theorem no_premoves_no_queue P position es :
  (∀ P' s t pc, Dropped P' s t pc ∈ es → arePremovesAllowed P' = false) →
  premovesRef (run P position es) = []
  ∧ premoves (state (run P position es)) = [].
Proof.
  intros Hoff. apply queue_stays_empty; [by rewrite mount_eq.. | done].
Qed.

(** The external update that follows a live drop (applied directly, or
    accepted by the callback) is adopted at once and leaves the mover
    colour at the dropped piece's: with premoves off and alternate moves
    expected, a further drop of that colour is still ignored after it. *)
Theorem same_colour_blocked_after_echo P P1 position b src tgt pc :
  liveDrop P b src tgt pc →
  arity (onPieceDrop P) = 0 ∨ call (onPieceDrop P) src tgt pc = true →
  let b2 := update P1 position (handleDrop P src tgt pc b) in
  currentPosition (state b2) = convertPositionToObject position
  ∧ lastPieceColour (state b2) = char0 pc
  ∧ manualDrop (state b2) = false
  ∧ waitingForAnimation (state b2) = false
  ∧ ∀ P2 src' tgt' pc',
      arePremovesAllowed P2 = false →
      expectingAlternateMoves P2 = true →
      char0 pc' = char0 pc →
      handleDrop P2 src' tgt' pc' b2 = b2.
Proof.
  intros Hlive Hok. cbn.
  assert (waitingForAnimation (state b) = false) as Hw by apply Hlive.
  assert (currentPosition
            (state (update P1 position (handleDrop P src tgt pc b)))
          = convertPositionToObject position
          ∧ lastPieceColour
              (state (update P1 position (handleDrop P src tgt pc b)))
            = char0 pc
          ∧ manualDrop
              (state (update P1 position (handleDrop P src tgt pc b)))
            = false
          ∧ waitingForAnimation
              (state (update P1 position (handleDrop P src tgt pc b)))
            = false) as (Hpos & Hcol & Hm & Hw2).
  { rewrite update_eq, positionEffect_eq.
    destruct (decide (arity (onPieceDrop P) = 0)) as [Har | Har].
    - rewrite handleDrop_direct by done. cbn. by rewrite Hw.
    - destruct Hok as [? | Hyes]; [done |].
      rewrite handleDrop_delegated by done. cbn. rewrite Hyes. cbn.
      by rewrite Hw. }
  split_and!; [done.. |].
  intros P2 src' tgt' pc' Hoff Halt Hsame.
  apply handleDrop_returns_early. right. by rewrite Hcol.
Qed.

End Composition.

(** ** The further statements at concrete runs *)

(** An accepted e2-e4 on the idle board leaves the pawn on e2. *)
Lemma accepted_drop_keeps_position_witness :
  currentPosition
    (state (handleDrop (validatingProps false true) (Sq "e2") (Sq "e4") "wP"
              idleBoard))
  = currentPosition (state idleBoard)
  ∧ lastPieceColour
      (state (handleDrop (validatingProps false true) (Sq "e2") (Sq "e4")
                "wP" idleBoard))
    = char0 "wP".
Proof.
  destruct (accepted_drop_keeps_position (validatingProps false true)
              idleBoard (Sq "e2") (Sq "e4") "wP")
    as (Hpos & _ & Hcol & _); [compute_done | done | done |].
  by split.
Defined.

(** The e2 pawn dropped off the board ends the same with ['trash'] and
    with ['snapback']. *)
Lemma dropOffBoardAction_no_effect_witness :
  handleDrop trashProps (Sq "e2") SqUndefined "wP" idleBoard
  = handleDrop defaultProps (Sq "e2") SqUndefined "wP" idleBoard.
Proof.
  by apply (dropOffBoardAction_no_effect defaultProps trashProps (Sq "e2")
              SqUndefined "wP" idleBoard).
Defined.

(** With d2-d4 queued and Black to have moved, the default callback is
    still not called and the premove stays queued. *)
Lemma zero_arity_callback_never_called_witness :
  exec (attemptPremove defaultProps (Some "b"%char)) premoveWaiting
  = premoveWaiting.
Proof.
  destruct (zero_arity_callback_never_called defaultProps eq_refl)
    as (_ & Hnone).
  apply Hnone.
Defined.

(** After 1. e4 and [clearPremoves], White may drop again. *)
Lemma clearPremoves_unblocks_witness :
  liveDrop defaultProps (exec clearPremoves whiteMoved) (Sq "d2") (Sq "d4")
           "wP".
Proof.
  by destruct (clearPremoves_unblocks defaultProps whiteMoved (Sq "d2")
                 (Sq "d4") "wP" ltac:(by vm_compute) ltac:(done) ltac:(done))
    as (Hlive & _).
Defined.

(** The position handed back after the drop e2-e4 is adopted without a
    timer. *)
Lemma update_after_manual_drop_witness :
  currentPosition (state (sampleUpdate defaultProps afterE4 justDropped))
  = normalizeMapping afterE4
  ∧ timers (sampleUpdate defaultProps afterE4 justDropped) = [].
Proof.
  destruct (update_after_manual_drop normalizeMapping diff differsFromStart
              defaultProps afterE4 justDropped (run_Reachable _ _ _ _ _ _))
    as (Hpos & _ & Hts & _); [by vm_compute.. |].
  by split.
Defined.

(** Black's reply arrives with d2-d4 queued; g1-f3 is dropped during the
    animation; the reply is shown when timer 2 expires. *)
Lemma animated_update_commits_witness :
  currentPosition
    (state (foldl (step normalizeMapping diff differsFromStart)
              (sampleUpdate (validatingProps true true) afterE4E5
                 premoveWaiting)
              [Dropped (validatingProps true true) (Sq "g1") (Sq "f3") "wN"]))
  = currentPosition (state premoveWaiting)
  ∧ currentPosition
      (state (fire (nextTimeout premoveWaiting)
                (foldl (step normalizeMapping diff differsFromStart)
                   (sampleUpdate (validatingProps true true) afterE4E5
                      premoveWaiting)
                   [Dropped (validatingProps true true) (Sq "g1") (Sq "f3")
                      "wN"])))
    = normalizeMapping afterE4E5.
Proof.
  destruct (animated_update_commits normalizeMapping diff differsFromStart
              (validatingProps true true) afterE4E5
              [Dropped (validatingProps true true) (Sq "g1") (Sq "f3") "wN"]
              premoveWaiting (run_Reachable _ _ _ _ _ _))
    as (Hpos & _ & _ & Hpos3 & _); [by vm_compute | by vm_compute | |].
  { intros e ->%list_elem_of_singleton. eauto. }
  by split.
Defined.

(** The reply is scheduled by a render that does not allow premoves; the
    queue holds two premoves when timer 2 expires, and none is tried. *)
Lemma commit_uses_scheduling_props_witness :
  length (premovesRef
            (foldl (step normalizeMapping diff differsFromStart)
               (sampleUpdate (validatingProps false true) afterE4E5
                  premoveWaiting)
               [Dropped (validatingProps true true) (Sq "g1") (Sq "f3")
                  "wN"])) = 2
  ∧ calls (fire (nextTimeout premoveWaiting)
             (foldl (step normalizeMapping diff differsFromStart)
                (sampleUpdate (validatingProps false true) afterE4E5
                   premoveWaiting)
                [Dropped (validatingProps true true) (Sq "g1") (Sq "f3")
                   "wN"]))
    = calls (foldl (step normalizeMapping diff differsFromStart)
               (sampleUpdate (validatingProps false true) afterE4E5
                  premoveWaiting)
               [Dropped (validatingProps true true) (Sq "g1") (Sq "f3")
                  "wN"]).
Proof.
  split; [by vm_compute |].
  destruct (commit_uses_scheduling_props normalizeMapping diff
              differsFromStart (validatingProps false true) afterE4E5
              [Dropped (validatingProps true true) (Sq "g1") (Sq "f3") "wN"]
              premoveWaiting (run_Reachable _ _ _ _ _ _))
    as (Hcalls & _); [by vm_compute | by vm_compute | | done | done].
  intros e ->%list_elem_of_singleton. eauto.
Defined.

(** While Black's reply is animated, the recorded timer ends the
    animation. *)
Lemma animating_iff_pending_witness :
  ∃ id, previousTimeout (state animatingReply) = Some id
        ∧ waitingForAnimation (state (fire id animatingReply)) = false
        ∧ timers (fire id animatingReply) = [].
Proof.
  apply (animating_iff_pending normalizeMapping diff differsFromStart
           animatingReply (run_Reachable _ _ _ _ _ _)).
  by vm_compute.
Defined.

(** The queued d2-d4 is replayed when Black's reply is committed; the
    position the consumer then hands over is shown without a timer. *)
Lemma premove_replay_not_animated_witness :
  manualDrop (state (fire 2 animatingReply)) = true
  ∧ timers (sampleUpdate (validatingProps true true) afterD4
              (fire 2 animatingReply)) = []
  ∧ currentPosition
      (state (sampleUpdate (validatingProps true true) afterD4
                (fire 2 animatingReply)))
    = normalizeMapping afterD4.
Proof.
  destruct (premove_replay_not_animated normalizeMapping diff
              differsFromStart 2
              (mkCommit afterE4E5 (Some "b"%char) (validatingProps true true))
              (mkPremove (Sq "d2") (Sq "d4") "wP") []
              (validatingProps true true) afterD4 animatingReply
              (run_Reachable _ _ _ _ _ _))
    as (Hm & Hpos & _ & Hts & _).
  - assert (timers animatingReply
            = [(2, mkCommit afterE4E5 (Some "b"%char)
                     (validatingProps true true))]) as -> by (by vm_compute).
    left.
  - reflexivity.
  - by vm_compute.
  - discriminate.
  - cbn. congruence.
  - cbn. lia.
  - by split_and!.
Defined.

(** A game played with the default props never queues anything. *)
Lemma no_premoves_no_queue_witness :
  premovesRef whiteMoved = [] ∧ premoves (state whiteMoved) = [].
Proof.
  apply (no_premoves_no_queue normalizeMapping diff differsFromStart
           defaultProps startPosition
           [TimerExpired 1;
            Dropped defaultProps (Sq "e2") (Sq "e4") "wP";
            PositionChanged defaultProps afterE4]).
  intros P' s t pc Hin.
  apply elem_of_cons in Hin as [[=] | Hin].
  apply elem_of_cons in Hin as [[= -> _ _ _] | Hin]; [done |].
  apply elem_of_cons in Hin as [[=] | Hin].
  by apply elem_of_nil in Hin.
Defined.

(** After e2-e4 and the hand-back of the position, White's d2-d4 is
    still ignored. *)
Lemma same_colour_blocked_after_echo_witness :
  handleDrop defaultProps (Sq "d2") (Sq "d4") "wP"
    (sampleUpdate defaultProps afterE4
       (handleDrop defaultProps (Sq "e2") (Sq "e4") "wP" idleBoard))
  = sampleUpdate defaultProps afterE4
      (handleDrop defaultProps (Sq "e2") (Sq "e4") "wP" idleBoard).
Proof.
  destruct (same_colour_blocked_after_echo normalizeMapping diff
              differsFromStart defaultProps defaultProps afterE4 idleBoard
              (Sq "e2") (Sq "e4") "wP")
    as (_ & _ & _ & _ & Hblocked); [compute_done | by left |].
  by apply Hblocked.
Defined.
